(** * DocuFresh: the marker engine of [src/index.js], embedded and verified

    The development follows the JavaScript source function by function:
    [process], [replaceCustomData], [replaceBuiltInMarkers],
    [getBuiltInMarkers], [registerMarker], [autoUpdate] and
    [walkTextNodes].  The host facilities the source
    calls ([RegExp], [String.prototype.replace], [split], [trim], property
    lookup on a plain object) are modelled first, as executable functions.

    Strings are Rocq strings; a character stands for one code unit in the
    range 0..255.  Case mapping is defined on ASCII letters only, and the
    statements that depend on it say so. *)

From Stdlib Require Import String Ascii List Bool Arith PeanoNat ZArith Lia.
From Stdlib Require Import DecimalString.
Import ListNotations.
Local Open Scope list_scope.
Local Open Scope nat_scope.
Local Open Scope string_scope.

(** ** Code units and strings *)

Module Str.

Definition code (c : ascii) : nat := nat_of_ascii c.

Definition eqc (a b : ascii) : bool := Ascii.eqb a b.

Fixpoint all (p : ascii -> bool) (s : string) : bool :=
  match s with
  | EmptyString => true
  | String c t => p c && all p t
  end.

Fixpoint take (n : nat) (s : string) : string :=
  match n, s with
  | S n', String c t => String c (take n' t)
  | _, _ => EmptyString
  end.

Fixpoint drop (n : nat) (s : string) : string :=
  match n, s with
  | S n', String _ t => drop n' t
  | _, _ => s
  end.

Fixpoint starts (p s : string) : bool :=
  match p, s with
  | EmptyString, _ => true
  | String a p', String b s' => eqc a b && starts p' s'
  | String _ _, EmptyString => false
  end.

Fixpoint rev_onto (s acc : string) : string :=
  match s with
  | EmptyString => acc
  | String c t => rev_onto t (String c acc)
  end.

Definition rev (s : string) : string := rev_onto s EmptyString.

Fixpoint concat_sep (sep : string) (l : list string) : string :=
  match l with
  | [] => EmptyString
  | [x] => x
  | x :: t => x ++ sep ++ concat_sep sep t
  end.

Definition is_digit (c : ascii) : bool :=
  Nat.leb 48 (code c) && Nat.leb (code c) 57.

Definition is_lower (c : ascii) : bool :=
  Nat.leb 97 (code c) && Nat.leb (code c) 122.

Definition is_upper (c : ascii) : bool :=
  Nat.leb 65 (code c) && Nat.leb (code c) 90.

Definition is_ascii (c : ascii) : bool := Nat.ltb (code c) 128.

(** White space and line terminators removed by [trim] and matched by [\s],
    as far as they fall in the modelled range: TAB, LF, VT, FF, CR, SP, NBSP. *)
Definition is_space (c : ascii) : bool :=
  (Nat.leb 9 (code c) && Nat.leb (code c) 13) || Nat.eqb (code c) 32 || Nat.eqb (code c) 160.

Definition is_line_terminator (c : ascii) : bool :=
  Nat.eqb (code c) 10 || Nat.eqb (code c) 13.

Definition is_word (c : ascii) : bool :=
  is_digit c || is_lower c || is_upper c || Nat.eqb (code c) 95.

End Str.

(** ** Regular expressions: the fragment of the pattern language modelled *)

Module Regex.

Inductive class_item : Type :=
| CChar (c : ascii)
| CRange (lo hi : ascii)
| CDigit (neg : bool)
| CWord (neg : bool)
| CSpace (neg : bool).

Inductive regex : Type :=
| Empty
| Char (c : ascii)
| Dot
| Class (neg : bool) (items : list class_item)
| Bol
| Eol
| Seq (r1 r2 : regex)
| Alt (r1 r2 : regex)
| Group (idx : nat) (r : regex)
| Repeat (min : nat) (max : option nat) (greedy : bool)
         (parenIndex parenCount : nat) (r : regex).

Definition item_matches (c : ascii) (i : class_item) : bool :=
  match i with
  | CChar a => Str.eqc a c
  | CRange lo hi => Nat.leb (Str.code lo) (Str.code c) && Nat.leb (Str.code c) (Str.code hi)
  | CDigit neg => xorb neg (Str.is_digit c)
  | CWord neg => xorb neg (Str.is_word c)
  | CSpace neg => xorb neg (Str.is_space c)
  end.

Definition class_matches (neg : bool) (items : list class_item) (c : ascii) : bool :=
  xorb neg (existsb (item_matches c) items).

(** The matcher state of the language definition: the end index reached so
    far, the input from there on, and the captures of groups 1..n. *)
Record mstate : Type := MState {
  pos : nat;
  rest : string;
  caps : list (option string)
}.

Definition cont : Type := mstate -> option mstate.

Definition orelse (a : option mstate) (b : unit -> option mstate) : option mstate :=
  match a with
  | Some x => Some x
  | None => b tt
  end.

Definition step_char (p : ascii -> bool) (x : mstate) (k : cont) : option mstate :=
  match rest x with
  | String c t => if p c then k (MState (S (pos x)) t (caps x)) else None
  | EmptyString => None
  end.

Fixpoint set_nth {A} (n : nat) (v : A) (l : list A) : list A :=
  match l, n with
  | [], _ => []
  | _ :: t, 0 => v :: t
  | a :: t, S n' => a :: set_nth n' v t
  end.

(** Captures of the groups numbered [parenIndex+1 .. parenIndex+parenCount]
    are cleared at the start of every iteration of a quantified atom. *)
Fixpoint clear_from (from count : nat) (l : list (option string)) : list (option string) :=
  match l with
  | [] => []
  | a :: t =>
      match from with
      | S f => a :: clear_from f count t
      | 0 => match count with
             | 0 => a :: t
             | S c => None :: clear_from 0 c t
             end
      end
  end.

Definition dec_max (max : option nat) : option nat :=
  match max with
  | Some n => Some (Nat.pred n)
  | None => None
  end.

Definition max_is_zero (max : option nat) : bool :=
  match max with
  | Some 0 => true
  | _ => false
  end.

Section Repeat.
Variable mr : mstate -> cont -> option mstate.
Variable greedy : bool.
Variables parenIndex parenCount : nat.

Definition reset (x : mstate) : mstate :=
  MState (pos x) (rest x) (clear_from parenIndex parenCount (caps x)).

(** RepeatMatcher once [min] has reached zero: an iteration that consumes
    nothing is rejected, so the loop runs at most once per remaining
    character; [fuel] counts those. *)
Fixpoint repeat_opt (fuel : nat) (max : option nat) (x : mstate) (k : cont)
  : option mstate :=
  if max_is_zero max then k x else
  match fuel with
  | 0 => k x
  | S fuel' =>
      let d := fun y => if Nat.eqb (pos y) (pos x) then None
                        else repeat_opt fuel' (dec_max max) y k in
      if greedy
      then orelse (mr (reset x) d) (fun _ => k x)
      else orelse (k x) (fun _ => mr (reset x) d)
  end.

(** RepeatMatcher while [min] is not zero. *)
Fixpoint repeat_min (min : nat) (max : option nat) (x : mstate) (k : cont)
  : option mstate :=
  match min with
  | 0 => repeat_opt (S (String.length (rest x))) max x k
  | S min' =>
      if max_is_zero max then k x
      else mr (reset x) (fun y => repeat_min min' (dec_max max) y k)
  end.
End Repeat.

Fixpoint m (r : regex) {struct r} : mstate -> cont -> option mstate :=
  match r with
  | Empty => fun x k => k x
  | Char c => step_char (Str.eqc c)
  | Dot => step_char (fun c => negb (Str.is_line_terminator c))
  | Class neg items => step_char (class_matches neg items)
  | Bol => fun x k => if Nat.eqb (pos x) 0 then k x else None
  | Eol => fun x k => match rest x with EmptyString => k x | _ => None end
  | Seq r1 r2 => fun x k => m r1 x (fun y => m r2 y k)
  | Alt r1 r2 => fun x k => orelse (m r1 x k) (fun _ => m r2 x k)
  | Group idx r' => fun x k =>
      m r' x (fun y =>
        k (MState (pos y) (rest y)
             (set_nth (Nat.pred idx)
                (Some (Str.take (pos y - pos x) (rest x))) (caps y))))
  | Repeat min max greedy pi pc r' => repeat_min (m r') greedy pi pc min max
  end.

(** *** Pattern syntax

    [parse] reads pattern text the way [new RegExp(source, 'g')] does for a
    pattern without the [u] flag: braces and a closing bracket that cannot
    be read as syntax are literal characters.  The fragment covers literal
    characters, [.], [^], [$], classes, capturing and [(?:)] groups,
    alternation, the quantifiers [*], [+], [?] and [{n}], [{n,}], [{n,m}]
    with their lazy forms, the class escapes [\d \w \s] and identity and
    control escapes.  Look-around, back references, named groups, [\b] and
    numeric, hexadecimal or Unicode escapes are reported as [Unmodelled]. *)

(** How a call ends: with a value, with an exception that leaves it, or
    outside the modelled fragment.  The pattern reader raises a
    [SyntaxError]; a [TypeError] is what reading a property of [null] or
    [undefined] raises, which the pattern reader never does. *)
Inductive outcome (A : Type) : Type :=
| Ok (a : A)
| SyntaxError (msg : string)
| Unmodelled
| TypeError (msg : string).
Arguments Ok {A} a.
Arguments SyntaxError {A} msg.
Arguments Unmodelled {A}.
Arguments TypeError {A} msg.

Definition bind {A B} (x : outcome A) (f : A -> outcome B) : outcome B :=
  match x with
  | Ok a => f a
  | SyntaxError msg => SyntaxError msg
  | Unmodelled => Unmodelled
  | TypeError msg => TypeError msg
  end.

Notation "' p <- x ;; k" := (bind x (fun p => k))
  (at level 61, p pattern, x at next level, right associativity).

Definition ch (n : nat) : ascii := ascii_of_nat n.

Definition digit_value (c : ascii) : nat := Str.code c - 48.

(** Decimal digits at the head of [s]: their value, how many there are, and
    the text after them. *)
Fixpoint read_digits (s : string) (acc count : nat) : nat * nat * string :=
  match s with
  | String c t =>
      if Str.is_digit c then read_digits t (10 * acc + digit_value c) (S count)
      else (acc, count, s)
  | EmptyString => (acc, count, s)
  end.

(** The text after an opening brace, read as an interval quantifier:
    [n}], [n,}] or [n,m}]. *)
Definition read_interval (s : string) : option (nat * option nat * string) :=
  match read_digits s 0 0 with
  | (_, 0, _) => None
  | (lo, _, String "}" t) => Some (lo, Some lo, t)
  | (lo, _, String "," (String "}" t)) => Some (lo, None, t)
  | (lo, _, String "," t) =>
      match read_digits t 0 0 with
      | (_, 0, _) => None
      | (hi, _, String "}" t') => Some (lo, Some hi, t')
      | _ => None
      end
  | _ => None
  end.

Definition read_lazy (s : string) : bool * string :=
  match s with
  | String "?" t => (false, t)
  | _ => (true, s)
  end.

(** The quantifier, if any, that follows an atom. *)
Definition read_quantifier (s : string)
  : outcome (option (nat * option nat * bool) * string) :=
  match s with
  | String "*" t => let (g, t') := read_lazy t in Ok (Some (0, None, g), t')
  | String "+" t => let (g, t') := read_lazy t in Ok (Some (1, None, g), t')
  | String "?" t => let (g, t') := read_lazy t in Ok (Some (0, Some 1, g), t')
  | String "{" t =>
      match read_interval t with
      | Some (lo, hi, t') =>
          let (g, t'') := read_lazy t' in
          match hi with
          | Some h => if Nat.ltb h lo
                      then SyntaxError "numbers out of order in {} quantifier"
                      else Ok (Some (lo, hi, g), t'')
          | None => Ok (Some (lo, hi, g), t'')
          end
      | None => Ok (None, s)
      end
  | _ => Ok (None, s)
  end.

(** The character after a backslash, outside a class. *)
Definition read_escape (c : ascii) : outcome regex :=
  match c with
  | "d"%char => Ok (Class false [CDigit false])
  | "D"%char => Ok (Class false [CDigit true])
  | "w"%char => Ok (Class false [CWord false])
  | "W"%char => Ok (Class false [CWord true])
  | "s"%char => Ok (Class false [CSpace false])
  | "S"%char => Ok (Class false [CSpace true])
  | "f"%char => Ok (Char (ch 12))
  | "n"%char => Ok (Char (ch 10))
  | "r"%char => Ok (Char (ch 13))
  | "t"%char => Ok (Char (ch 9))
  | "v"%char => Ok (Char (ch 11))
  | "b"%char | "B"%char | "c"%char | "x"%char | "u"%char | "k"%char => Unmodelled
  | _ => if Str.is_digit c then Unmodelled else Ok (Char c)
  end.

(** The character after a backslash, inside a class. *)
Definition read_class_escape (c : ascii) : outcome class_item :=
  match c with
  | "d"%char => Ok (CDigit false)
  | "D"%char => Ok (CDigit true)
  | "w"%char => Ok (CWord false)
  | "W"%char => Ok (CWord true)
  | "s"%char => Ok (CSpace false)
  | "S"%char => Ok (CSpace true)
  | "f"%char => Ok (CChar (ch 12))
  | "n"%char => Ok (CChar (ch 10))
  | "r"%char => Ok (CChar (ch 13))
  | "t"%char => Ok (CChar (ch 9))
  | "v"%char => Ok (CChar (ch 11))
  | "b"%char => Ok (CChar (ch 8))
  | "c"%char | "x"%char | "u"%char | "k"%char => Unmodelled
  | _ => if Str.is_digit c then Unmodelled else Ok (CChar c)
  end.

(** One class atom: a character or an escape. *)
Definition read_class_atom (s : string) : outcome (class_item * string) :=
  match s with
  | String "\" (String c t) => ' i <- read_class_escape c ;; Ok (i, t)
  | String "\" EmptyString => SyntaxError "\ at end of pattern"
  | String c t => Ok (CChar c, t)
  | EmptyString => SyntaxError "Unterminated character class"
  end.

(** The items of a class up to its closing bracket. *)
Fixpoint read_class_items (fuel : nat) (s : string)
  : outcome (list class_item * string) :=
  match fuel with
  | 0 => SyntaxError "Unterminated character class"
  | S fuel' =>
      match s with
      | EmptyString => SyntaxError "Unterminated character class"
      | String "]" t => Ok ([], t)
      | _ =>
          ' (a, s1) <- read_class_atom s ;;
          match s1 with
          | String "-" (String "]" t) => Ok ([a; CChar "-"], t)
          | String "-" s2 =>
              ' (b, s3) <- read_class_atom s2 ;;
              match a, b with
              | CChar lo, CChar hi =>
                  if Nat.ltb (Str.code hi) (Str.code lo)
                  then SyntaxError "Range out of order in character class"
                  else ' (l, s4) <- read_class_items fuel' s3 ;;
                       Ok (CRange lo hi :: l, s4)
              | _, _ =>
                  ' (l, s4) <- read_class_items fuel' s3 ;;
                  Ok (a :: CChar "-" :: b :: l, s4)
              end
          | _ => ' (l, s2) <- read_class_items fuel' s1 ;; Ok (a :: l, s2)
          end
      end
  end.

Definition read_class (s : string) : outcome (regex * string) :=
  match s with
  | String "^" t =>
      ' (l, t') <- read_class_items (S (String.length t)) t ;; Ok (Class true l, t')
  | _ =>
      ' (l, t') <- read_class_items (S (String.length s)) s ;; Ok (Class false l, t')
  end.

Definition quantify (q : option (nat * option nat * bool)) (pi pc : nat) (r : regex)
  : regex :=
  match q with
  | Some (lo, hi, g) => Repeat lo hi g pi pc r
  | None => r
  end.

(** Disjunction, alternative and term.  [n] is the number of capturing
    groups opened so far; the result carries the text left and the new count. *)
Fixpoint parse_disjunction (fuel : nat) (s : string) (n : nat)
  : outcome (regex * string * nat) :=
  match fuel with
  | 0 => Unmodelled
  | S fuel' =>
      ' (r1, s1, n1) <- parse_alternative fuel' s n ;;
      match s1 with
      | String "|" s2 =>
          ' (r2, s3, n2) <- parse_disjunction fuel' s2 n1 ;;
          Ok (Alt r1 r2, s3, n2)
      | _ => Ok (r1, s1, n1)
      end
  end
with parse_alternative (fuel : nat) (s : string) (n : nat)
  : outcome (regex * string * nat) :=
  match fuel with
  | 0 => Unmodelled
  | S fuel' =>
      match s with
      | EmptyString => Ok (Empty, s, n)
      | String "|" _ => Ok (Empty, s, n)
      | String ")" _ => Ok (Empty, s, n)
      | _ =>
          ' (r1, s1, n1) <- parse_term fuel' s n ;;
          ' (r2, s2, n2) <- parse_alternative fuel' s1 n1 ;;
          Ok (Seq r1 r2, s2, n2)
      end
  end
with parse_term (fuel : nat) (s : string) (n : nat)
  : outcome (regex * string * nat) :=
  match fuel with
  | 0 => Unmodelled
  | S fuel' =>
      let quantified (a : regex) (t : string) (n' : nat) :=
        ' (q, t') <- read_quantifier t ;; Ok (quantify q n (n' - n) a, t', n') in
      match s with
      | EmptyString => Ok (Empty, s, n)
      | String "^" t => Ok (Bol, t, n)
      | String "$" t => Ok (Eol, t, n)
      | String "*" _ | String "+" _ | String "?" _ => SyntaxError "Nothing to repeat"
      | String "{" t =>
          match read_interval t with
          | Some _ => SyntaxError "Nothing to repeat"
          | None => quantified (Char "{") t n
          end
      | String "." t => quantified Dot t n
      | String "\" EmptyString => SyntaxError "\ at end of pattern"
      | String "\" (String c t) => ' a <- read_escape c ;; quantified a t n
      | String "[" t => ' (a, t') <- read_class t ;; quantified a t' n
      | String "(" (String "?" (String ":" t)) =>
          ' (r, t', n') <- parse_disjunction fuel' t n ;;
          match t' with
          | String ")" t'' => quantified r t'' n'
          | _ => SyntaxError "Unterminated group"
          end
      | String "(" (String "?" _) => Unmodelled
      | String "(" t =>
          ' (r, t', n') <- parse_disjunction fuel' t (S n) ;;
          match t' with
          | String ")" t'' => quantified (Group (S n) r) t'' n'
          | _ => SyntaxError "Unterminated group"
          end
      | String c t => quantified (Char c) t n
      end
  end.

(** A compiled pattern: its matcher and the number of capturing groups. *)
Record RegExp : Type := MkRegExp {
  ast : regex;
  ngroups : nat
}.

(** [new RegExp(source, 'g')]: the pattern, or the [SyntaxError] raised. *)
Definition compile (source : string) : outcome RegExp :=
  ' (r, s, n) <- parse_disjunction (4 * String.length source + 4) source 0 ;;
  match s with
  | EmptyString => Ok (MkRegExp r n)
  | String ")" _ => SyntaxError "Unmatched ')'"
  | _ => Unmodelled
  end.

(** One attempt at the position where [rest] starts: the length of the
    match and the captures. *)
Definition exec_at (re : RegExp) (p : nat) (rest : string)
  : option (nat * list (option string)) :=
  match m (ast re) (MState p rest (List.repeat None (ngroups re))) (fun y => Some y) with
  | Some y => Some (pos y - p, caps y)
  | None => None
  end.

End Regex.

(** ** The string operations of the host that the source calls *)

Module JS.
Import Regex.

(** [s.charAt(0)] and [s.slice(1)]. *)
Definition charAt0 (s : string) : string :=
  match s with
  | String c _ => String c EmptyString
  | EmptyString => EmptyString
  end.

Definition slice1 (s : string) : string := Str.drop 1 s.

(** Case mapping, on ASCII letters; other code units are left alone. *)
Definition upper_char (c : ascii) : ascii :=
  if Str.is_lower c then ascii_of_nat (Str.code c - 32) else c.

Definition lower_char (c : ascii) : ascii :=
  if Str.is_upper c then ascii_of_nat (Str.code c + 32) else c.

Fixpoint map_chars (f : ascii -> ascii) (s : string) : string :=
  match s with
  | EmptyString => EmptyString
  | String c t => String (f c) (map_chars f t)
  end.

Definition toUpperCase : string -> string := map_chars upper_char.
Definition toLowerCase : string -> string := map_chars lower_char.

(** [s.trim()]. *)
Fixpoint trimStart (s : string) : string :=
  match s with
  | String c t => if Str.is_space c then trimStart t else s
  | EmptyString => EmptyString
  end.

Definition trimEnd (s : string) : string := Str.rev (trimStart (Str.rev s)).

Definition trim (s : string) : string := trimEnd (trimStart s).

(** [s.split(sep)] for a separator of one character: never an empty list. *)
Fixpoint split (sep : ascii) (s : string) : list string :=
  match s with
  | EmptyString => [EmptyString]
  | String c t =>
      if Str.eqc c sep then EmptyString :: split sep t
      else match split sep t with
           | h :: r => String c h :: r
           | [] => [String c EmptyString]
           end
  end.

(** [parts.slice(1).join(sep)]. *)
Definition join (sep : string) (parts : list string) : string :=
  Str.concat_sep sep parts.

(** GetSubstitution: the expansion of the [$]-sequences of a replacement
    text.  [matched] is the matched text, [before] and [after] the input on
    both sides of it, [captures] the groups 1..n of the match. *)
Definition capture_text (captures : list (option string)) (i : nat) : string :=
  match nth_error captures (Nat.pred i) with
  | Some (Some s) => s
  | _ => EmptyString
  end.

Definition in_captures (captures : list (option string)) (i : nat) : bool :=
  Nat.leb 1 i && Nat.leb i (List.length captures).

Fixpoint getSubstitution (matched before after : string)
    (captures : list (option string)) (replacement : string) : string :=
  let continue := getSubstitution matched before after captures in
  match replacement with
  | EmptyString => EmptyString
  | String "$" (String "$" t) => String "$" (continue t)
  | String "$" (String "&" t) => matched ++ continue t
  | String "$" (String "`" t) => before ++ continue t
  | String "$" (String "'" t) => after ++ continue t
  | String "$" (String d1 t) =>
      if Str.is_digit d1 then
        let one :=
          if in_captures captures (digit_value d1)
          then capture_text captures (digit_value d1) ++ continue t
          else String "$" (String d1 (continue t)) in
        match t with
        | String d2 t' =>
            if Str.is_digit d2 &&
               in_captures captures (10 * digit_value d1 + digit_value d2)
            then capture_text captures (10 * digit_value d1 + digit_value d2)
                   ++ continue t'
            else one
        | EmptyString => one
        end
      else String "$" (String d1 (continue t))
  | String c t => String c (continue t)
  end.

(** The first occurrence of [pat] in [s]: the text before it and after it. *)
Fixpoint split_at_first (pat s : string) : option (string * string) :=
  if Str.starts pat s then Some (EmptyString, Str.drop (String.length pat) s)
  else match s with
       | EmptyString => None
       | String c t =>
           match split_at_first pat t with
           | Some (a, b) => Some (String c a, b)
           | None => None
           end
       end.

(** [s.replace(pat, replacement)] with a string pattern: the first
    occurrence only, the replacement text expanded by GetSubstitution. *)
Definition replace_string (s pat replacement : string) : string :=
  match split_at_first pat s with
  | Some (before, after) =>
      before ++ getSubstitution pat before after [] replacement ++ after
  | None => s
  end.

(** [s.replace(re, replacement)] with a global pattern.  The input is
    walked once; [skip] counts the characters of the current match still to
    pass over; after an empty match the search resumes one character on. *)
Fixpoint replace_loop (re : RegExp) (replacement whole : string)
    (p : nat) (rest : string) (skip : nat) {struct rest} : string :=
  match skip with
  | S skip' =>
      match rest with
      | String _ t => replace_loop re replacement whole (S p) t skip'
      | EmptyString => EmptyString
      end
  | 0 =>
      match exec_at re p rest with
      | Some (len, captures) =>
          let sub := getSubstitution (Str.take len rest) (Str.take p whole)
                       (Str.drop len rest) captures replacement in
          match rest with
          | EmptyString => sub
          | String c t =>
              match len with
              | 0 => sub ++ String c (replace_loop re replacement whole (S p) t 0)
              | S len' => sub ++ replace_loop re replacement whole (S p) t len'
              end
          end
      | None =>
          match rest with
          | EmptyString => EmptyString
          | String c t => String c (replace_loop re replacement whole (S p) t 0)
          end
      end
  end.

Definition replace_regexp (s : string) (re : RegExp) (replacement : string) : string :=
  replace_loop re replacement s 0 s 0.

(** [[...s.matchAll(re)]]: every match in order, each with its groups. *)
Fixpoint matchAll_loop (re : RegExp) (p : nat) (rest : string) (skip : nat) {struct rest}
  : list (string * list (option string)) :=
  match skip with
  | S skip' =>
      match rest with
      | String _ t => matchAll_loop re (S p) t skip'
      | EmptyString => []
      end
  | 0 =>
      match exec_at re p rest with
      | Some (len, captures) =>
          (Str.take len rest, captures) ::
          match rest with
          | EmptyString => []
          | String _ t => matchAll_loop re (S p) t (Nat.pred len)
          end
      | None =>
          match rest with
          | EmptyString => []
          | String _ t => matchAll_loop re (S p) t 0
          end
      end
  end.

Definition matchAll (s : string) (re : RegExp) : list (string * list (option string)) :=
  matchAll_loop re 0 s 0.

End JS.

(** ** The class [DocuFresh] *)

Module DocuFresh.
Import Regex.

(** What a call of a marker function comes to: the text it returns (as
    [String.prototype.replace] reads it), or the value it throws.  The
    handler of [replaceBuiltInMarkers] reads the property [message] of that
    value.  [Thrown message] is a value on which the read succeeds, with
    the text [console.error] writes for what is read: the message of an
    [Error], ["undefined"] for a value that has none.  [ThrownNullish] is
    [null] or [undefined], on which the read itself raises a [TypeError].
    A thrown object whose [message] is an accessor that throws in its turn
    is outside the model. *)
Inductive completion : Type :=
| Returned (v : string)
| Thrown (message : string)
| ThrownNullish.

Definition markerFn : Type := list string -> completion.

(** [this.markers]: the own properties of the object. *)
Definition registry : Type := string -> option markerFn.

(** A value of the custom data: string, number or boolean.  A number is
    carried as its decimal text, the result of the host's number-to-string
    conversion. *)
Inductive scalar : Type :=
| SString (s : string)
| SNumber (text : string)
| SBoolean (b : bool).

(** [String(value)]. *)
Definition String_ (v : scalar) : string :=
  match v with
  | SString s => s
  | SNumber text => text
  | SBoolean true => "true"
  | SBoolean false => "false"
  end.

(** [Object.entries(data)]: the entries in enumeration order. *)
Definition customData : Type := list (string * scalar).

(** A line written by [console.error]: the marker text and the message. *)
Definition diagnostic : Type := (string * string)%type.

(** The message of a [TypeError] raised by the host; its wording is left to
    the implementation, one text stands for all of them. *)
Definition host_type_error : string := "TypeError".

(** The properties every plain object inherits from [Object.prototype],
    called as [markerFn(...params)], that is without a receiver. *)
Definition inherited (name : string) : option markerFn :=
  if String.eqb name "constructor" then
    Some (fun params => match params with
                        | [] => Returned "[object Object]"
                        | p :: _ => Returned p
                        end)
  else if String.eqb name "toString" then Some (fun _ => Returned "[object Undefined]")
  else if String.eqb name "isPrototypeOf" then Some (fun _ => Returned "false")
  else if existsb (String.eqb name)
            ["toLocaleString"; "valueOf"; "hasOwnProperty"; "propertyIsEnumerable";
             "__defineGetter__"; "__defineSetter__"; "__lookupGetter__";
             "__lookupSetter__"; "__proto__"]
  then Some (fun _ => Thrown host_type_error)
  else None.

(** [this.markers[markerName]]. *)
Definition lookup (markers : registry) (markerName : string) : option markerFn :=
  match markers markerName with
  | Some fn => Some fn
  | None => inherited markerName
  end.

(** [registerMarker(name, fn)]: [this.markers[name] = fn], for a name other
    than ["__proto__"] (assigning to that name creates no property). *)
Definition registerMarker (name : string) (fn : markerFn) (markers : registry) : registry :=
  fun n => if String.eqb n name then Some fn else markers n.

(** The text markers of [getBuiltInMarkers]. *)
Definition capitalize : markerFn := fun params =>
  match params with
  | text :: _ => Returned (JS.toUpperCase (JS.charAt0 text) ++ JS.toLowerCase (JS.slice1 text))
  | [] => Thrown host_type_error
  end.

Definition upper : markerFn := fun params =>
  match params with
  | text :: _ => Returned (JS.toUpperCase text)
  | [] => Thrown host_type_error
  end.

Definition lower : markerFn := fun params =>
  match params with
  | text :: _ => Returned (JS.toLowerCase text)
  | [] => Thrown host_type_error
  end.

(** The built-in markers whose result depends on the clock, the locale,
    floating point arithmetic or the random source. *)
Definition host_names : list string :=
  ["current_year"; "current_month"; "current_date"; "current_time";
   "days_since"; "days_until"; "years_since"; "age"; "relative_time";
   "timestamp"; "add"; "subtract"; "multiply"; "divide"; "random";
   "format_number"].

(** The pattern of [replaceBuiltInMarkers], [/{{([^}]+)}}/g]. *)
Definition markerPattern : RegExp :=
  MkRegExp
    (Seq (Char "{") (Seq (Char "{")
      (Seq (Group 1 (Seq (Repeat 1 None true 1 0 (Class true [CChar "}"])) Empty))
        (Seq (Char "}") (Seq (Char "}") Empty))))) 1.

(** The name and the parameters of a marker, from the text between the braces. *)
Definition parse_marker (markerContent : string) : string * list string :=
  let parts := JS.split ":" markerContent in
  let markerName := JS.trim (hd EmptyString parts) in
  let paramString := JS.join ":" (tl parts) in
  let params := if String.eqb paramString EmptyString then []
                else map JS.trim (JS.split "," paramString) in
  (markerName, params).

(** [getBuiltInMarkers()], given the host-dependent markers by name. *)
Definition getBuiltInMarkers (host : string -> markerFn) : registry := fun name =>
  if existsb (String.eqb name) host_names then Some (host name)
  else if String.eqb name "capitalize" then Some capitalize
  else if String.eqb name "upper" then Some upper
  else if String.eqb name "lower" then Some lower
  else None.

(** The body of the loop of [replaceBuiltInMarkers] for one match: the
    text and the diagnostics after it, and the message of the [TypeError]
    that leaves the handler when the value caught is [null] or
    [undefined]. *)
Definition marker_step (markers : registry) (st : string * list diagnostic)
    (mt : string * list (option string))
  : (string * list diagnostic) * option string :=
  let (result, log) := st in
  let fullMarker := fst mt in
  let markerContent := JS.capture_text (snd mt) 1 in
  let (markerName, params) := parse_marker markerContent in
  match lookup markers markerName with
  | Some markerFn =>
      match markerFn params with
      | Returned replacement =>
          ((JS.replace_string result fullMarker replacement, log), None)
      | Thrown message => ((result, log ++ [(fullMarker, message)])%list, None)
      | ThrownNullish => ((result, log), Some host_type_error)
      end
  | None => ((result, log), None)
  end.

(** The loop [for (const match of matches)]: an exception that leaves the
    body ends it. *)
Fixpoint marker_loop (markers : registry) (matches : list (string * list (option string)))
    (st : string * list diagnostic) : (string * list diagnostic) * option string :=
  match matches with
  | [] => (st, None)
  | mt :: matches' =>
      match marker_step markers st mt with
      | (st', None) => marker_loop markers matches' st'
      | (st', Some message) => (st', Some message)
      end
  end.

(** [replaceBuiltInMarkers(text)] with what it leaves behind when it
    raises: the working text and the diagnostics logged until then. *)
Definition replaceBuiltInMarkers_trace (markers : registry) (text : string)
  : (string * list diagnostic) * option string :=
  marker_loop markers (JS.matchAll text markerPattern) (text, []).

(** What the caller gets: the value, or the [TypeError]. *)
Definition leave {A : Type} (r : A * option string) : outcome A :=
  match r with
  | (a, None) => Ok a
  | (_, Some message) => TypeError message
  end.

(** [replaceBuiltInMarkers(text)]: the text returned and the diagnostics
    logged, or the exception that leaves the call. *)
Definition replaceBuiltInMarkers (markers : registry) (text : string)
  : outcome (string * list diagnostic) :=
  leave (replaceBuiltInMarkers_trace markers text).

(** One turn of the loop of [replaceCustomData]. *)
Definition custom_step (result : string) (entry : string * scalar) : outcome string :=
  let (key, value) := entry in
  ' pattern <- compile ("{{" ++ key ++ "}}") ;;
  Ok (JS.replace_regexp result pattern (String_ value)).

Fixpoint replaceCustomData (text : string) (data : customData) : outcome string :=
  match data with
  | [] => Ok text
  | entry :: data' =>
      ' result <- custom_step text entry ;; replaceCustomData result data'
  end.

(** [process(text, customData)]: the text returned and the diagnostics
    logged, or the exception that leaves the call. *)
Definition process (markers : registry) (text : string) (data : customData)
  : outcome (string * list diagnostic) :=
  ' result <- replaceCustomData text data ;;
  replaceBuiltInMarkers markers result.

(** [process(text, customData)] as its caller sees it together with the
    console: the diagnostics logged, also when the call raises, and the text
    returned or the exception. *)
Definition process_trace (markers : registry) (text : string) (data : customData)
  : list diagnostic * outcome string :=
  match replaceCustomData text data with
  | Ok result =>
      let '((result', log), raised) := replaceBuiltInMarkers_trace markers result in
      (log, match raised with
            | None => Ok result'
            | Some message => TypeError message
            end)
  | SyntaxError msg => ([], SyntaxError msg)
  | Unmodelled => ([], Unmodelled)
  | TypeError msg => ([], TypeError msg)
  end.

End DocuFresh.

(** ** Reference notions used in the statements *)

Module Ref.
Import Regex.

(** The pattern that matches the text [s] and nothing else. *)
Fixpoint lit (s : string) : regex :=
  match s with
  | EmptyString => Empty
  | String c t => Seq (Char c) (lit t)
  end.

(** Characters that pattern syntax reads as themselves wherever they stand. *)
Definition plain_char (c : ascii) : bool :=
  negb (existsb (Str.eqc c)
          ["^"; "$"; "\"; "."; "*"; "+"; "?"; "("; ")"; "["; "|"; "{"]%char).

Definition starts_with_digit (s : string) : bool :=
  match s with
  | String c _ => Str.is_digit c
  | EmptyString => false
  end.

(** A key that [{{key}}], read as a pattern, matches literally. *)
Definition plain_key (key : string) : bool :=
  Str.all plain_char key && negb (starts_with_digit key).

Definition is_not (c : ascii) : ascii -> bool := fun a => negb (Str.eqc a c).

(** [s.replaceAll(pat, v)] with [v] inserted as it is: every occurrence of
    [pat], left to right, without overlap. *)
Fixpoint replace_every_loop (pat v rest : string) (skip : nat) {struct rest} : string :=
  match skip with
  | S skip' =>
      match rest with
      | String _ t => replace_every_loop pat v t skip'
      | EmptyString => EmptyString
      end
  | 0 =>
      if Str.starts pat rest then
        match rest with
        | EmptyString => v
        | String c t =>
            match String.length pat with
            | 0 => v ++ String c (replace_every_loop pat v t 0)
            | S len' => v ++ replace_every_loop pat v t len'
            end
        end
      else
        match rest with
        | EmptyString => EmptyString
        | String c t => String c (replace_every_loop pat v t 0)
        end
  end.

Definition replace_every (s pat v : string) : string := replace_every_loop pat v s 0.

(** Whether [pat] occurs in [s]. *)
Fixpoint occurs (pat s : string) : bool :=
  Str.starts pat s ||
  match s with
  | EmptyString => false
  | String _ t => occurs pat t
  end.

(** [t0 x t1 x ... x tk]: the segments [t0 :: segs] with [x] between them. *)
Fixpoint interleave (x t0 : string) (segs : list string) : string :=
  match segs with
  | [] => t0
  | t1 :: segs' => t0 ++ x ++ interleave x t1 segs'
  end.

(** The text of the marker with the given content. *)
Definition marker_text (content : string) : string := "{{" ++ content ++ "}}".

(** The matcher of the class [[^}]]. *)
Definition not_brace : mstate -> cont -> option mstate :=
  step_char (class_matches true [CChar "}"]).

(** The text before the first [sep] and the text after it, if [sep] occurs. *)
Fixpoint cut_first (sep : ascii) (s : string) : option (string * string) :=
  match s with
  | EmptyString => None
  | String c t =>
      if Str.eqc c sep then Some (EmptyString, t)
      else match cut_first sep t with
           | Some (a, b) => Some (String c a, b)
           | None => None
           end
  end.

(** Marker parsing as the specification words it: the name is the trimmed
    text before the first colon; the text after the first colon is split on
    commas into trimmed parameters; without a colon there are no parameters. *)
Definition claimed_parse_marker (content : string) : string * list string :=
  match cut_first ":" content with
  | Some (name, paramString) => (JS.trim name, map JS.trim (JS.split "," paramString))
  | None => (JS.trim content, [])
  end.

(** What the marker of a match comes to: nothing when the name resolves to
    no function, else the completion of the call. *)
Definition resolution (markers : DocuFresh.registry)
    (mt : string * list (option string)) : option DocuFresh.completion :=
  let (name, params) := DocuFresh.parse_marker (JS.capture_text (snd mt) 1) in
  match DocuFresh.lookup markers name with
  | Some f => Some (f params)
  | None => None
  end.


(** The diagnostics of the matches whose marker raises, in order. *)
Definition diagnostics_of (markers : DocuFresh.registry)
    (matches : list (string * list (option string))) : list DocuFresh.diagnostic :=
  flat_map (fun mt => match resolution markers mt with
                      | Some (DocuFresh.Thrown message) => [(fst mt, message)]
                      | _ => []
                      end) matches.

End Ref.

(** ** Instances used in the examples *)

Module Samples.
Import DocuFresh.

(** A host whose clock, locale and arithmetic markers all answer ["0"]. *)
Definition host : string -> markerFn := fun _ _ => Returned "0".

Definition builtins : registry := getBuiltInMarkers host.


(** [registerMarker('m', () => 'A')]. *)
Definition constant : registry :=
  registerMarker "m" (fun _ => Returned "A") builtins.

(** [registerMarker('bad', () => { throw new Error('boom') })] and
    [registerMarker('a', () => 'V')]. *)
Definition failing : registry :=
  registerMarker "a" (fun _ => Returned "V")
    (registerMarker "bad" (fun _ => Thrown "boom") builtins).


(** [registerMarker('a+', () => 'M')]. *)
Definition plus : registry :=
  registerMarker "a+" (fun _ => Returned "M") builtins.


(** [registerMarker('nil', () => { throw null })], added to [failing]. *)
Definition nullish : registry :=
  registerMarker "nil" (fun _ => ThrownNullish) failing.

End Samples.

(** ** Numbers, as far as the markers modelled below use them *)

Module Num.

(** A number of the host that is an integer, or [NaN].  The model is exact
    for the integers a double holds exactly (below 2^53 in absolute value)
    and prints them in decimal, which is what the host does below 10^21. *)
Inductive jsnum : Type :=
| NaN
| Int (z : Z).

(** [String(n)] and [n.toString()]. *)
Definition toString (n : jsnum) : string :=
  match n with
  | NaN => "NaN"
  | Int z => NilEmpty.string_of_int (Z.to_int z)
  end.

(** [a - b]. *)
Definition sub (a b : jsnum) : jsnum :=
  match a, b with
  | Int x, Int y => Int (x - y)
  | _, _ => NaN
  end.

(** [a === b], [a < b] and [a > b]: false as soon as one side is [NaN]. *)
Definition eqb (a b : jsnum) : bool :=
  match a, b with
  | Int x, Int y => Z.eqb x y
  | _, _ => false
  end.

Definition ltb (a b : jsnum) : bool :=
  match a, b with
  | Int x, Int y => Z.ltb x y
  | _, _ => false
  end.

Definition gtb (a b : jsnum) : bool := ltb b a.

(** [Math.abs(a)]. *)
Definition abs (a : jsnum) : jsnum :=
  match a with
  | Int x => Int (Z.abs x)
  | NaN => NaN
  end.

(** [Math.floor(a / k)] for a positive integer [k]. *)
Definition floor_div (a : jsnum) (k : Z) : jsnum :=
  match a with
  | Int x => Int (Z.div x k)
  | NaN => NaN
  end.

(** The value of a digit in the given radix, if it is one. *)
Definition digit_in (radix : nat) (c : ascii) : option Z :=
  let n := Str.code c in
  let v := if Str.is_digit c then Some (n - 48)
           else if Nat.leb 97 n && Nat.leb n 102 then Some (n - 87)
           else if Nat.leb 65 n && Nat.leb n 70 then Some (n - 55)
           else None in
  match v with
  | Some d => if Nat.ltb d radix then Some (Z.of_nat d) else None
  | None => None
  end.

(** The longest run of digits at the head of [s]: its value and its length. *)
Fixpoint read_radix (radix : nat) (s : string) (acc : Z) (count : nat) : Z * nat :=
  match s with
  | String c t =>
      match digit_in radix c with
      | Some d => read_radix radix t (Z.of_nat radix * acc + d) (S count)
      | None => (acc, count)
      end
  | EmptyString => (acc, count)
  end.

(** [parseInt(s)], without a radix argument. *)
Definition parseInt (s : string) : jsnum :=
  let s1 := JS.trimStart s in
  let (negative, s2) :=
    match s1 with
    | String "-" t => (true, t)
    | String "+" t => (false, t)
    | _ => (false, s1)
    end in
  let (radix, s3) :=
    match s2 with
    | String "0" (String "x" t) => (16, t)
    | String "0" (String "X" t) => (16, t)
    | _ => (10, s2)
    end in
  match read_radix radix s3 0 0 with
  | (_, 0) => NaN
  | (v, _) => Int (if negative then - v else v)
  end.

End Num.

(** ** The date markers whose text does not depend on the locale *)

Module DateMarkers.
Import Regex DocuFresh Num.

(** [re.test(s)] for a pattern without the global flag: some position of
    [s] matches. *)
Fixpoint test_loop (re : RegExp) (p : nat) (rest : string) : bool :=
  match exec_at re p rest with
  | Some _ => true
  | None =>
      match rest with
      | EmptyString => false
      | String _ t => test_loop re (S p) t
      end
  end.

Definition test (re : RegExp) (s : string) : bool := test_loop re 0 s.

(** The pattern of [years_since], [/^\d{4}$/]. *)
Definition yearPattern : RegExp :=
  MkRegExp
    (Seq Bol (Seq (Repeat 4 (Some 4) true 0 0 (Class false [CDigit false]))
      (Seq Eol Empty))) 0.

(** [years_since], given the year of the clock and, for a text that is
    neither four digits nor three parts, the year the host reads from it
    ([new Date(dateString).getFullYear()]). *)
Definition years_since (currentYear : Z) (dateYear : string -> jsnum) : markerFn :=
  fun params =>
    match params with
    | [] => Thrown host_type_error
    | dateString :: _ =>
        let targetYear :=
          if test yearPattern dateString then parseInt dateString
          else
            let parts := JS.split "-" dateString in
            if Nat.leb 3 (List.length parts) then parseInt (hd EmptyString parts)
            else dateYear dateString in
        Returned (toString (sub (Int currentYear) targetYear))
    end.

(** [week${weeks > 1 ? 's' : ''}]. *)
Definition plural (n : jsnum) : string :=
  if gtb n (Int 1) then "s" else "".

(** The body of [relative_time] once [diffDays] is known. *)
Definition relative_phrase (diffDays : jsnum) : string :=
  if eqb diffDays (Int 0) then "today"
  else if eqb diffDays (Int 1) then "yesterday"
  else if eqb diffDays (Int (-1)) then "tomorrow"
  else if ltb diffDays (Int 0) then
    let futureDays := abs diffDays in
    if ltb futureDays (Int 7) then "in " ++ toString futureDays ++ " days"
    else if ltb futureDays (Int 30)
    then "in " ++ toString (floor_div futureDays 7) ++ " weeks"
    else if ltb futureDays (Int 365)
    then "in " ++ toString (floor_div futureDays 30) ++ " months"
    else "in " ++ toString (floor_div futureDays 365) ++ " years"
  else if ltb diffDays (Int 7) then toString diffDays ++ " days ago"
  else if ltb diffDays (Int 30) then
    let weeks := floor_div diffDays 7 in
    toString weeks ++ " week" ++ plural weeks ++ " ago"
  else if ltb diffDays (Int 365) then
    let months := floor_div diffDays 30 in
    toString months ++ " month" ++ plural months ++ " ago"
  else
    let years := floor_div diffDays 365 in
    toString years ++ " year" ++ plural years ++ " ago".

(** [relative_time], given the whole days from the date text (absent when
    the marker has no parameter) to now, [NaN] for a text the host reads as
    no date. *)
Definition relative_time (daysSince : option string -> jsnum) : markerFn :=
  fun params => Returned (relative_phrase (daysSince (hd_error params))).

End DateMarkers.

(** ** [autoUpdate] and [walkTextNodes] *)

Module Dom.
Import Regex DocuFresh.

(** A node of the document: a text node ([nodeType] 3) with its
    [textContent], or any other node with its [childNodes]. *)
#[local] Unset Elimination Schemes.
Inductive node : Type :=
| Text (textContent : string)
| Parent (childNodes : list node).
#[local] Set Elimination Schemes.

(** How a walk ends: normally, by an exception, or outside the model. *)
Inductive status : Type :=
| Done
| RaisedSyntaxError (message : string)
| RaisedTypeError (message : string)
| Outside.

(** [s.includes(pat)]. *)
Definition includes (s pat : string) : bool := Ref.occurs pat s.

(** The callback of [autoUpdate] on the text of a node: the diagnostics
    [process] logs, and the new text or the exception of [process]. *)
Definition update_text (markers : registry) (data : customData) (originalText : string)
  : list diagnostic * outcome string :=
  let (log, returned) := process_trace markers originalText data in
  (log,
   ' updatedText <- returned ;;
   Ok (if String.eqb originalText updatedText then originalText else updatedText)).

(** The loop [for (let child of node.childNodes)] over a walk of one
    node: the children are visited in order, and an exception stops the
    loop where it is raised. *)
Definition walk_children (walk : node -> node * list diagnostic * status)
  : list node -> list node * list diagnostic * status :=
  fix go (cs : list node) :=
    match cs with
    | [] => ([], [], Done)
    | c :: cs' =>
        match walk c with
        | (c', log1, Done) =>
            let '(cs'', log2, st) := go cs' in
            (c' :: cs'', (log1 ++ log2)%list, st)
        | (c', log1, st) => (c' :: cs', log1, st)
        end
    end.

(** [walkTextNodes(node, callback)]: the tree after the walk, the
    diagnostics logged, and how the walk ended. *)
Fixpoint walkTextNodes (callback : string -> list diagnostic * outcome string)
    (n : node) {struct n} : node * list diagnostic * status :=
  match n with
  | Text s =>
      if includes s "{{" then
        match callback s with
        | (log, Ok s') => (Text s', log, Done)
        | (log, SyntaxError message) => (n, log, RaisedSyntaxError message)
        | (log, Unmodelled) => (n, log, Outside)
        | (log, TypeError message) => (n, log, RaisedTypeError message)
        end
      else (n, [], Done)
  | Parent children =>
      let '(children', log, st) := walk_children (walkTextNodes callback) children in
      (Parent children', log, st)
  end.

(** A line written by [console.warn]. *)
Inductive warning : Type :=
| BrowserOnly
| NotFound (selector : string).

(** What [autoUpdate] leaves behind: the element it worked on, if any, as
    it is after the call, the warnings and diagnostics logged, and how the
    call ended. *)
Record updated : Type := MkUpdated {
  element : option node;
  warnings : list warning;
  diagnostics : list diagnostic;
  ended : status
}.

(** [autoUpdate(selector, customData)].  [document] is absent outside a
    browser; in one it is given by its [querySelector], for selectors the
    host accepts. *)
Definition autoUpdate (markers : registry) (document : option (string -> option node))
    (selector : string) (data : customData) : updated :=
  match document with
  | None => MkUpdated None [BrowserOnly] [] Done
  | Some querySelector =>
      match querySelector selector with
      | None => MkUpdated None [NotFound selector] [] Done
      | Some element =>
          let '(element', log, st) := walkTextNodes (update_text markers data) element in
          MkUpdated (Some element') [] log st
      end
  end.

(** The texts of the text nodes, in document order. *)
Fixpoint texts (n : node) : list string :=
  match n with
  | Text s => [s]
  | Parent children => flat_map texts children
  end.

(** The tree with [f] applied to the text of every text node. *)
Fixpoint map_text (f : string -> string) (n : node) : node :=
  match n with
  | Text s => Text (f s)
  | Parent children => Parent (map (map_text f) children)
  end.

(** The text a visited node gets when [process] returns. *)
Definition processed (markers : registry) (data : customData) (s : string) : string :=
  if includes s "{{" then
    match process markers s data with
    | Ok (s', _) => s'
    | _ => s
    end
  else s.

(** The text [process] returns for [s], or [s] when it raises. *)
Definition process_text (markers : registry) (data : customData) (s : string) : string :=
  match process markers s data with
  | Ok (s', _) => s'
  | _ => s
  end.

End Dom.

(** ** Further reference notions *)

Module Ref2.
Import DocuFresh Ref.

(** The custom-data pass as a chain of literal replacements. *)
Definition literal_pass (text : string) (data : customData) : string :=
  fold_left (fun result entry =>
               replace_every result (marker_text (fst entry)) (String_ (snd entry)))
            data text.

(** The marker name of a match of the scan. *)
Definition name_of (mt : string * list (option string)) : string :=
  fst (parse_marker (JS.capture_text (snd mt) 1)).

(** [this.markers[name]] for the text markers, for a one-parameter call. *)
Definition text_marker_result (name t : string) : string :=
  if String.eqb name "upper" then JS.toUpperCase t
  else if String.eqb name "lower" then JS.toLowerCase t
  else JS.toUpperCase (JS.charAt0 t) ++ JS.toLowerCase (JS.slice1 t).

(** Two calls end the same way: both return, or both raise the same
    exception, or both are outside the model. *)
Definition same_ending {A B : Type} (a : Regex.outcome A) (b : Regex.outcome B) : Prop :=
  match a, b with
  | Regex.Ok _, Regex.Ok _ => True
  | Regex.SyntaxError m, Regex.SyntaxError m' => m = m'
  | Regex.Unmodelled, Regex.Unmodelled => True
  | Regex.TypeError m, Regex.TypeError m' => m = m'
  | _, _ => False
  end.

End Ref2.

(** ** The scan of the built-in pass, with the text between the matches *)

Module Scan.
Import Regex Ref DocuFresh.

(** A piece of a scanned text: a character outside every match, or a
    match, given by the text between its braces. *)
Inductive piece : Type :=
| Lone (c : ascii)
| Mark (content : string).

(** The walk of [matchAll] with [markerPattern], keeping the characters
    outside the matches. *)
Fixpoint pieces_loop (p : nat) (rest : string) (skip : nat) {struct rest} : list piece :=
  match skip with
  | S skip' =>
      match rest with
      | String _ t => pieces_loop (S p) t skip'
      | EmptyString => []
      end
  | 0 =>
      match exec_at markerPattern p rest with
      | Some (len, captures) =>
          Mark (JS.capture_text captures 1) ::
          match rest with
          | EmptyString => []
          | String _ t => pieces_loop (S p) t (Nat.pred len)
          end
      | None =>
          match rest with
          | EmptyString => []
          | String c t => Lone c :: pieces_loop (S p) t 0
          end
      end
  end.

Definition pieces (text : string) : list piece := pieces_loop 0 text 0.

(** The match a marker piece stands for. *)
Definition match_of (content : string) : string * list (option string) :=
  (marker_text content, [Some content]).

Definition marks (xs : list piece) : list (string * list (option string)) :=
  flat_map (fun x => match x with
                     | Lone _ => []
                     | Mark content => [match_of content]
                     end) xs.

(** The text a list of pieces is cut from. *)
Fixpoint source (xs : list piece) : string :=
  match xs with
  | [] => EmptyString
  | Lone c :: xs' => String c (source xs')
  | Mark content :: xs' => marker_text content ++ source xs'
  end.

(** The value the marker of a piece returns, if it returns one. *)
Definition value_of (markers : registry) (content : string) : option string :=
  match resolution markers (match_of content) with
  | Some (Returned v) => Some v
  | _ => None
  end.

(** The pieces with every marker whose function returns a value replaced
    by that value where it stands, and everything else as it is. *)
Fixpoint settle (markers : registry) (xs : list piece) : string :=
  match xs with
  | [] => EmptyString
  | Lone c :: xs' => String c (settle markers xs')
  | Mark content :: xs' =>
      match value_of markers content with
      | Some v => v
      | None => marker_text content
      end ++ settle markers xs'
  end.

(** The text with every match replaced in place. *)
Definition replaced_in_place (markers : registry) (text : string) : string :=
  settle markers (pieces text).

(** A replacement that builds no marker text with what stands around it:
    it is not empty, does not begin with ['}'], and holds no ['{'] and no
    ['$']. *)
Definition inert (v : string) : bool :=
  match v with
  | EmptyString => false
  | String c _ => is_not "}" c && Str.all (is_not "{") v && Str.all (is_not "$") v
  end.

(** A match the loop deals with where it stands: its marker returns an
    inert text, or it stays (the marker is unknown, or throws a value with
    a readable message) and holds no ['{'] between its braces. *)
Definition settled (markers : registry) (mt : string * list (option string)) : bool :=
  match resolution markers mt with
  | Some (Returned v) => inert v
  | Some ThrownNullish => false
  | _ => Str.all (is_not "{") (JS.capture_text (snd mt) 1)
  end.

(** Every turn of the loop is its own: when the turn of a match whose
    marker returns a value comes, the first occurrence of its text in the
    working text (what the earlier turns made of the pieces before it,
    [done], followed by the rest of the text) is the match itself; the
    value holds no ['$'], and no marker throws [null] or [undefined]. *)
Fixpoint own_turns (markers : registry) (done : string) (xs : list piece) : Prop :=
  match xs with
  | [] => True
  | Lone c :: xs' => own_turns markers (done ++ String c EmptyString) xs'
  | Mark content :: xs' =>
      match resolution markers (match_of content) with
      | Some (Returned v) =>
          JS.split_at_first (marker_text content)
            (done ++ marker_text content ++ source xs') = Some (done, source xs') /\
          Str.all (is_not "$") v = true /\
          own_turns markers (done ++ v) xs'
      | Some ThrownNullish => False
      | _ => own_turns markers (done ++ marker_text content) xs'
      end
  end.

(** Whether a text begins with a match of [markerPattern]. *)
Definition marker_start (s : string) : bool :=
  match exec_at markerPattern 0 s with
  | Some _ => true
  | None => false
  end.

(** The pieces of a scan: no match begins at a lone character, and the
    content of a match is not empty and holds no ['}']. *)
Fixpoint valid (xs : list piece) : Prop :=
  match xs with
  | [] => True
  | Lone c :: xs' => marker_start (String c (source xs')) = false /\ valid xs'
  | Mark content :: xs' =>
      content <> EmptyString /\ Str.all (is_not "}") content = true /\ valid xs'
  end.

(** A piece together with what the loop has made of it: a marker is kept
    as it is or swapped for a value. *)
Inductive worked : Type :=
| WLone (c : ascii)
| WKept (content : string)
| WSwapped (content v : string).

Definition work_with (sel : string -> option string) (x : piece) : worked :=
  match x with
  | Lone c => WLone c
  | Mark content =>
      match sel content with
      | Some v => WSwapped content v
      | None => WKept content
      end
  end.

(** The text before the loop and the working text. *)
Fixpoint before (ws : list worked) : string :=
  match ws with
  | [] => EmptyString
  | WLone c :: ws' => String c (before ws')
  | WKept content :: ws' => marker_text content ++ before ws'
  | WSwapped content _ :: ws' => marker_text content ++ before ws'
  end.

Fixpoint current (ws : list worked) : string :=
  match ws with
  | [] => EmptyString
  | WLone c :: ws' => String c (current ws')
  | WKept content :: ws' => marker_text content ++ current ws'
  | WSwapped _ v :: ws' => v ++ current ws'
  end.

Fixpoint wvalid (ws : list worked) : Prop :=
  match ws with
  | [] => True
  | WLone c :: ws' => marker_start (String c (before ws')) = false /\ wvalid ws'
  | WKept content :: ws' =>
      content <> EmptyString /\ Str.all (is_not "}") content = true /\ wvalid ws'
  | WSwapped content v :: ws' =>
      content <> EmptyString /\ Str.all (is_not "}") content = true /\
      inert v = true /\ wvalid ws'
  end.

(** A worked piece in which the marker text of [content] cannot begin: a
    kept marker is another one and holds no ['{']. *)
Definition apart (content : string) (w : worked) : Prop :=
  match w with
  | WKept content' => content' <> content /\ Str.all (is_not "{") content' = true
  | _ => True
  end.

End Scan.

(** ** Facts about strings *)

Module StrFacts.

Lemma app_nil_r (s : string) : s ++ "" = s.
Proof. induction s as [|c s IH]; simpl; [reflexivity | now rewrite IH]. Qed.

Lemma app_assoc (a b c : string) : (a ++ b) ++ c = a ++ (b ++ c).
Proof. induction a as [|x a IH]; simpl; [reflexivity | now rewrite IH]. Qed.

Lemma length_app (a b : string) :
  String.length (a ++ b) = String.length a + String.length b.
Proof. induction a as [|x a IH]; simpl; [reflexivity | now rewrite IH]. Qed.

Lemma eqc_refl (c : ascii) : Str.eqc c c = true.
Proof. apply Ascii.eqb_refl. Qed.

Lemma eqc_true (a b : ascii) : Str.eqc a b = true -> a = b.
Proof. apply Ascii.eqb_eq. Qed.

Lemma starts_app (p s : string) : Str.starts p (p ++ s) = true.
Proof. induction p as [|c p IH]; simpl; [reflexivity | now rewrite eqc_refl]. Qed.

Lemma starts_true (p s : string) :
  Str.starts p s = true -> s = p ++ Str.drop (String.length p) s.
Proof.
  revert s; induction p as [|c p IH]; intros [|d s]; simpl; try discriminate; auto.
  intros H. apply andb_true_iff in H as [H1 H2].
  apply eqc_true in H1. subst d. f_equal. now apply IH.
Qed.

Lemma take_app (a b : string) : Str.take (String.length a) (a ++ b) = a.
Proof. induction a as [|x a IH]; simpl; [now destruct b | now rewrite IH]. Qed.

Lemma drop_app (a b : string) : Str.drop (String.length a) (a ++ b) = b.
Proof. induction a as [|x a IH]; simpl; auto. Qed.

Lemma all_app (p : ascii -> bool) (a b : string) :
  Str.all p (a ++ b) = Str.all p a && Str.all p b.
Proof.
  induction a as [|x a IH]; simpl; [reflexivity |].
  now rewrite IH, andb_assoc.
Qed.

End StrFacts.

(** ** Facts about the pattern reader *)

Module ParseFacts.
Import Regex Ref.

Ltac by_ascii c :=
  destruct c as [[] [] [] [] [] [] [] []]; try discriminate; try reflexivity.

Lemma parse_term_plain (f : nat) (c : ascii) (t : string) (n : nat) :
  plain_char c = true ->
  parse_term (S f) (String c t) n =
  bind (read_quantifier t) (fun '(q, t') => Ok (quantify q n (n - n) (Char c), t', n)).
Proof. intros H. by_ascii c. Qed.

Lemma parse_alternative_plain_step (f : nat) (c : ascii) (t : string) (n : nat) :
  plain_char c = true ->
  parse_alternative (S f) (String c t) n =
  bind (parse_term f (String c t) n) (fun '(r1, s1, n1) =>
    bind (parse_alternative f s1 n1) (fun '(r2, s2, n2) => Ok (Seq r1 r2, s2, n2))).
Proof. intros H. by_ascii c. Qed.

Lemma read_quantifier_plain (c : ascii) (t : string) :
  plain_char c = true -> read_quantifier (String c t) = Ok (None, String c t).
Proof. intros H. by_ascii c. Qed.

Lemma read_quantifier_empty : read_quantifier "" = Ok (None, "").
Proof. reflexivity. Qed.

Lemma read_quantifier_all_plain (s : string) :
  Str.all plain_char s = true -> read_quantifier s = Ok (None, s).
Proof.
  destruct s as [|c t]; simpl; intros H; [reflexivity |].
  apply andb_true_iff in H as [H _]. now apply read_quantifier_plain.
Qed.

Lemma parse_alternative_plain (s : string) :
  forall fuel n,
    Str.all plain_char s = true ->
    String.length s + 2 <= fuel ->
    parse_alternative fuel s n = Ok (lit s, "", n).
Proof.
  induction s as [|c t IH]; intros fuel n Hall Hfuel.
  - destruct fuel as [|f]; [simpl in Hfuel; lia | reflexivity].
  - simpl in Hall, Hfuel. apply andb_true_iff in Hall as [Hc Ht].
    destruct fuel as [|[|f]]; try lia.
    rewrite parse_alternative_plain_step by assumption.
    rewrite parse_term_plain by assumption.
    rewrite read_quantifier_all_plain by assumption.
    cbn [bind quantify].
    rewrite IH by (assumption || lia).
    reflexivity.
Qed.

Lemma read_digits_not_digit (s : string) :
  starts_with_digit s = false -> read_digits s 0 0 = (0, 0, s).
Proof. destruct s as [|c t]; simpl; intros H; [reflexivity | now rewrite H]. Qed.

Lemma read_interval_not_digit (s : string) :
  starts_with_digit s = false -> read_interval s = None.
Proof. intros H. unfold read_interval. now rewrite read_digits_not_digit. Qed.

Lemma starts_with_digit_app (k s : string) :
  starts_with_digit k = false -> starts_with_digit s = false ->
  starts_with_digit (k ++ s) = false.
Proof. destruct k; simpl; auto. Qed.

Lemma parse_disjunction_step (f : nat) (s : string) (n : nat) :
  parse_disjunction (S f) s n =
  bind (parse_alternative f s n) (fun '(r1, s1, n1) =>
    match s1 with
    | String "|" s2 =>
        bind (parse_disjunction f s2 n1) (fun '(r2, s3, n2) => Ok (Alt r1 r2, s3, n2))
    | _ => Ok (r1, s1, n1)
    end).
Proof. reflexivity. Qed.

Lemma parse_alternative_brace_step (f : nat) (t : string) (n : nat) :
  parse_alternative (S f) (String "{" t) n =
  bind (parse_term f (String "{" t) n) (fun '(r1, s1, n1) =>
    bind (parse_alternative f s1 n1) (fun '(r2, s2, n2) => Ok (Seq r1 r2, s2, n2))).
Proof. reflexivity. Qed.

Lemma read_quantifier_brace (t : string) :
  read_interval t = None -> read_quantifier (String "{" t) = Ok (None, String "{" t).
Proof. intros H. unfold read_quantifier. now rewrite H. Qed.

Lemma parse_term_brace (f : nat) (t : string) (n : nat) :
  read_interval t = None ->
  parse_term (S f) (String "{" t) n =
  bind (read_quantifier t) (fun '(q, t') => Ok (quantify q n (n - n) (Char "{"), t', n)).
Proof. intros H. cbn [parse_term]. now rewrite H. Qed.

(** [new RegExp("{{" + key + "}}", 'g')] for a plain key: the literal
    pattern, without groups. *)
Lemma compile_plain_key (key : string) :
  plain_key key = true ->
  compile (marker_text key) = Ok (MkRegExp (lit (marker_text key)) 0).
Proof.
  intros H. apply andb_true_iff in H as [Hall Hdig].
  apply negb_true_iff in Hdig.
  assert (Hnd : starts_with_digit (key ++ "}}") = false)
    by (now apply starts_with_digit_app).
  assert (Hsafe : Str.all plain_char (key ++ "}}") = true)
    by (rewrite StrFacts.all_app, Hall; reflexivity).
  assert (Hi1 : read_interval (String "{" (key ++ "}}")) = None)
    by (now apply read_interval_not_digit).
  assert (Hi2 : read_interval (key ++ "}}") = None)
    by (now apply read_interval_not_digit).
  unfold compile, marker_text.
  change ("{{" ++ key ++ "}}") with (String "{" (String "{" (key ++ "}}"))).
  remember (String.length (String "{" (String "{" (key ++ "}}")))) as len eqn:Hlen.
  simpl in Hlen. rewrite StrFacts.length_app in Hlen. simpl in Hlen.
  assert (Hf : exists f, 4 * len + 4 = S (S (S (S (S f)))) /\
                         String.length (key ++ "}}") + 2 <= S f).
  { exists (4 * len - 1). rewrite StrFacts.length_app. simpl. lia. }
  destruct Hf as (f & Hf & Hle). rewrite Hf.
  rewrite parse_disjunction_step, parse_alternative_brace_step.
  rewrite parse_term_brace, read_quantifier_brace by assumption.
  cbn [bind quantify].
  rewrite parse_alternative_brace_step.
  rewrite parse_term_brace by assumption.
  rewrite read_quantifier_all_plain by assumption.
  cbn [bind quantify].
  rewrite parse_alternative_plain by (assumption || lia).
  reflexivity.
Qed.

End ParseFacts.

(** ** Facts about matching and replacing *)

Module MatchFacts.
Import Regex Ref DocuFresh.

Lemma m_lit (s : string) :
  forall (x : mstate) (k : cont),
    m (lit s) x k =
    if Str.starts s (rest x)
    then k (MState (pos x + String.length s) (Str.drop (String.length s) (rest x)) (caps x))
    else None.
Proof.
  induction s as [|c t IH]; intros [p r cs] k; simpl.
  - now rewrite Nat.add_0_r.
  - unfold step_char; simpl. destruct r as [|d r]; [reflexivity |].
    destruct (Str.eqc c d); simpl; [| reflexivity].
    rewrite IH. simpl. now rewrite Nat.add_succ_r.
Qed.

Lemma exec_at_lit (s : string) (p : nat) (r : string) :
  exec_at (MkRegExp (lit s) 0) p r =
  if Str.starts s r then Some (String.length s, []) else None.
Proof.
  unfold exec_at. simpl. rewrite m_lit. simpl.
  destruct (Str.starts s r); [| reflexivity].
  cbn [pos caps]. f_equal. f_equal. lia.
Qed.

Lemma getSubstitution_char (c : ascii) (t matched before after : string)
    (captures : list (option string)) :
  is_not "$" c = true ->
  JS.getSubstitution matched before after captures (String c t) =
  String c (JS.getSubstitution matched before after captures t).
Proof. intros H. ParseFacts.by_ascii c. Qed.

(** A replacement text without [$] is inserted as it is. *)
Lemma getSubstitution_plain (v matched before after : string)
    (captures : list (option string)) :
  Str.all (is_not "$") v = true ->
  JS.getSubstitution matched before after captures v = v.
Proof.
  induction v as [|c t IH]; intros H; [reflexivity |].
  simpl in H. apply andb_true_iff in H as [Hc Ht].
  rewrite getSubstitution_char by assumption. now rewrite IH.
Qed.

(** With a literal pattern and a replacement without [$], the global
    replacement is the plain replacement of every occurrence. *)
Lemma replace_loop_lit (pat v whole : string) :
  Str.all (is_not "$") v = true ->
  forall (r : string) (p skip : nat),
    JS.replace_loop (MkRegExp (lit pat) 0) v whole p r skip =
    replace_every_loop pat v r skip.
Proof.
  intros Hv. induction r as [|c t IH]; intros p skip.
  - destruct skip; simpl; [| reflexivity].
    rewrite exec_at_lit. destruct (Str.starts pat ""); [| reflexivity].
    now apply getSubstitution_plain.
  - destruct skip as [|skip]; cbn [JS.replace_loop replace_every_loop].
    + rewrite exec_at_lit. destruct (Str.starts pat (String c t)).
      * rewrite getSubstitution_plain by assumption.
        destruct (String.length pat); now rewrite IH.
      * now rewrite IH.
    + apply IH.
Qed.

Lemma replace_regexp_lit (s pat v : string) :
  Str.all (is_not "$") v = true ->
  JS.replace_regexp s (MkRegExp (lit pat) 0) v = replace_every s pat v.
Proof. intros H. unfold JS.replace_regexp, replace_every. now apply replace_loop_lit. Qed.

Lemma eqc_sym (a b : ascii) : Str.eqc a b = Str.eqc b a.
Proof. apply Ascii.eqb_sym. Qed.

Lemma starts_other (a c : ascii) (pat s : string) :
  is_not a c = true -> Str.starts (String a pat) (String c s) = false.
Proof.
  unfold is_not. intros H. apply negb_true_iff in H.
  simpl. now rewrite eqc_sym, H.
Qed.

Lemma replace_every_skip (pat v rest : string) (s : string) :
  replace_every_loop pat v (s ++ rest) (String.length s) =
  replace_every_loop pat v rest 0.
Proof. induction s as [|c s IH]; simpl; [now destruct rest | exact IH]. Qed.

Lemma replace_every_hit (a : ascii) (pat v rest : string) :
  replace_every_loop (String a pat) v (String a pat ++ rest) 0 =
  v ++ replace_every_loop (String a pat) v rest 0.
Proof.
  cbn [append replace_every_loop].
  change (String a (pat ++ rest)) with (String a pat ++ rest).
  rewrite StrFacts.starts_app. cbn [String.length].
  now rewrite replace_every_skip.
Qed.

Lemma replace_every_miss (a : ascii) (pat v rest : string) (t0 : string) :
  Str.all (is_not a) t0 = true ->
  replace_every_loop (String a pat) v (t0 ++ rest) 0 =
  t0 ++ replace_every_loop (String a pat) v rest 0.
Proof.
  induction t0 as [|c t IH]; intros H; [reflexivity |].
  simpl in H. apply andb_true_iff in H as [Hc Ht].
  cbn [append replace_every_loop].
  rewrite starts_other by assumption. now rewrite IH.
Qed.

Lemma replace_every_none (a : ascii) (pat v t : string) :
  Str.all (is_not a) t = true ->
  replace_every_loop (String a pat) v t 0 = t.
Proof.
  intros H. rewrite <- (StrFacts.app_nil_r t) at 1.
  rewrite replace_every_miss by assumption.
  simpl. apply StrFacts.app_nil_r.
Qed.

Lemma split_at_first_hit (pat rest : string) :
  JS.split_at_first pat (pat ++ rest) = Some ("", rest).
Proof.
  destruct pat as [|a pat].
  - destruct rest; reflexivity.
  - cbn [JS.split_at_first append].
    change (String a (pat ++ rest)) with (String a pat ++ rest).
    now rewrite StrFacts.starts_app, StrFacts.drop_app.
Qed.

Lemma split_at_first_miss (a : ascii) (pat rest t0 : string) :
  Str.all (is_not a) t0 = true ->
  JS.split_at_first (String a pat) (t0 ++ rest) =
  match JS.split_at_first (String a pat) rest with
  | Some (x, y) => Some (t0 ++ x, y)
  | None => None
  end.
Proof.
  induction t0 as [|c t IH]; intros H.
  - simpl append. destruct (JS.split_at_first (String a pat) rest) as [[x y]|]; reflexivity.
  - simpl in H. apply andb_true_iff in H as [Hc Ht].
    cbn [append JS.split_at_first].
    rewrite starts_other by assumption. rewrite IH by assumption.
    destruct (JS.split_at_first (String a pat) rest) as [[x y]|]; reflexivity.
Qed.

(** [replace] with a string pattern, where the first occurrence is known. *)
Lemma replace_string_first (a : ascii) (pat v t0 rest : string) :
  Str.all (is_not a) t0 = true ->
  Str.all (is_not "$") v = true ->
  JS.replace_string (t0 ++ String a pat ++ rest) (String a pat) v = t0 ++ v ++ rest.
Proof.
  intros Ht Hv. unfold JS.replace_string.
  rewrite split_at_first_miss by assumption.
  rewrite split_at_first_hit. rewrite StrFacts.app_nil_r.
  now rewrite getSubstitution_plain.
Qed.

Lemma clear_from_none (from : nat) (l : list (option string)) :
  clear_from from 0 l = l.
Proof.
  revert from; induction l as [|a l IH]; intros [|f]; simpl; try reflexivity.
  now rewrite IH.
Qed.

Lemma class_not_brace (a : ascii) :
  class_matches true [CChar "}"] a = is_not "}" a.
Proof. unfold class_matches, is_not. simpl. now rewrite orb_false_r, eqc_sym. Qed.

Lemma step_char_cons (P : ascii -> bool) (p : nat) (a : ascii) (t : string)
    (cs : list (option string)) (k : cont) :
  step_char P (MState p (String a t) cs) k =
  if P a then k (MState (S p) t cs) else None.
Proof. reflexivity. Qed.

(** The greedy loop of [[^}]+] runs to the first closing brace. *)
Lemma repeat_opt_run (K : cont) (z : mstate) (r : string) (cs : list (option string)) :
  forall (c : string) (fuel p : nat),
    Str.all (is_not "}") c = true ->
    String.length c <= fuel ->
    K (MState (p + String.length c) (String "}" r) cs) = Some z ->
    repeat_opt not_brace true 1 0 fuel None (MState p (c ++ String "}" r) cs) K = Some z.
Proof.
  induction c as [|a c IH]; intros fuel p Hall Hfuel HK.
  - simpl in HK. rewrite Nat.add_0_r in HK.
    destruct fuel as [|fuel]; simpl; exact HK.
  - simpl in Hall, Hfuel. apply andb_true_iff in Hall as [Ha Hc].
    destruct fuel as [|fuel]; [lia |].
    cbn [repeat_opt max_is_zero dec_max].
    unfold not_brace at 1, reset. cbn [rest pos caps append].
    rewrite step_char_cons, class_not_brace, Ha, clear_from_none.
    cbn [pos]. replace (Nat.eqb (S p) p) with false
      by (symmetry; apply Nat.eqb_neq; lia).
    rewrite (IH fuel (S p)); [reflexivity | assumption | lia |].
    cbn [String.length] in HK. now rewrite Nat.add_succ_r in HK.
Qed.

Lemma exec_at_marker_hit (c rest : string) (p : nat) :
  c <> "" ->
  Str.all (is_not "}") c = true ->
  exec_at markerPattern p (marker_text c ++ rest) =
  Some (String.length c + 4, [Some c]).
Proof.
  intros Hne Hall. destruct c as [|a c]; [congruence |].
  simpl in Hall. apply andb_true_iff in Hall as [Ha Hc].
  unfold exec_at, markerPattern, marker_text. cbn [ast ngroups List.repeat].
  cbn [m append]. 
  rewrite !step_char_cons. cbn [Str.eqc Ascii.eqb Bool.eqb].
  cbn [repeat_min max_is_zero dec_max].
  unfold reset. cbn [pos Regex.rest caps clear_from].
  rewrite step_char_cons, class_not_brace, Ha. cbn [Regex.rest].
  change (step_char (class_matches true [CChar "}"])) with not_brace.
  rewrite StrFacts.app_assoc. cbn [append].
  set (z := MState (S (S (S (S (S p + String.length c))))) rest [Some (String a c)]).
  rewrite (repeat_opt_run _ z).
  - subst z. cbn [pos caps String.length]. f_equal. f_equal. lia.
  - assumption.
  - rewrite StrFacts.length_app. simpl. lia.
  - cbn [pos Regex.rest caps Nat.pred set_nth].
    rewrite step_char_cons. cbn [Str.eqc Ascii.eqb Bool.eqb].
    rewrite step_char_cons. cbn [Str.eqc Ascii.eqb Bool.eqb].
    subst z. f_equal.
    replace (S (S (S (S (S p)) + String.length c)))
      with (S (S (S (S (S p + String.length c))))) by lia.
    f_equal. f_equal. f_equal.
    replace (S (S (S p)) + String.length c - S (S p)) with (String.length (String a c))
      by (cbn [String.length]; lia).
    change (String a (c ++ String "}" (String "}" rest)))
      with (String a c ++ String "}" (String "}" rest)).
    now rewrite StrFacts.take_app.
Qed.

(** The pattern of the scan is what its source text compiles to. *)
Lemma markerPattern_source : compile "{{([^}]+)}}" = Ok markerPattern.
Proof. reflexivity. Qed.

Lemma exec_at_marker_miss (c : ascii) (t : string) (p : nat) :
  is_not "{" c = true -> exec_at markerPattern p (String c t) = None.
Proof.
  intros H. unfold is_not in H. apply negb_true_iff in H.
  unfold exec_at, markerPattern. cbn [ast m ngroups].
  rewrite step_char_cons. now rewrite eqc_sym, H.
Qed.

Lemma exec_at_marker_empty (p : nat) : exec_at markerPattern p "" = None.
Proof. reflexivity. Qed.

Lemma matchAll_skip (re : RegExp) (rest : string) (s : string) :
  forall p, JS.matchAll_loop re p (s ++ rest) (String.length s) =
            JS.matchAll_loop re (p + String.length s) rest 0.
Proof.
  induction s as [|c s IH]; intros p.
  - simpl. rewrite Nat.add_0_r. now destruct rest.
  - simpl. rewrite IH. f_equal. lia.
Qed.

Lemma matchAll_miss (rest : string) (t0 : string) :
  Str.all (is_not "{") t0 = true ->
  forall p, JS.matchAll_loop markerPattern p (t0 ++ rest) 0 =
            JS.matchAll_loop markerPattern (p + String.length t0) rest 0.
Proof.
  induction t0 as [|c t IH]; intros H p.
  - simpl. now rewrite Nat.add_0_r.
  - simpl in H. apply andb_true_iff in H as [Hc Ht].
    cbn [append JS.matchAll_loop].
    rewrite exec_at_marker_miss by assumption.
    rewrite IH by assumption. f_equal. simpl. lia.
Qed.

Lemma marker_text_length (c : string) :
  String.length (marker_text c) = String.length c + 4.
Proof. unfold marker_text. simpl. rewrite StrFacts.length_app. simpl. lia. Qed.

Lemma matchAll_hit (c rest : string) (p : nat) :
  c <> "" ->
  Str.all (is_not "}") c = true ->
  JS.matchAll_loop markerPattern p (marker_text c ++ rest) 0 =
  (marker_text c, [Some c]) ::
  JS.matchAll_loop markerPattern (p + (String.length c + 4)) rest 0.
Proof.
  intros Hne Hall.
  assert (Hex := exec_at_marker_hit c rest p Hne Hall).
  rewrite <- marker_text_length in *.
  remember (marker_text c) as M eqn:HM.
  destruct M as [|a M]; [discriminate |].
  cbn [append JS.matchAll_loop] in *. rewrite Hex.
  change (String a (M ++ rest)) with (String a M ++ rest).
  rewrite StrFacts.take_app. f_equal.
  cbn [String.length Nat.pred]. rewrite matchAll_skip. f_equal. lia.
Qed.

Lemma matchAll_interleave (c : string) :
  c <> "" ->
  Str.all (is_not "}") c = true ->
  forall (segs : list string) (t0 : string) (p : nat),
    Str.all (is_not "{") t0 = true ->
    forallb (Str.all (is_not "{")) segs = true ->
    JS.matchAll_loop markerPattern p (interleave (marker_text c) t0 segs) 0 =
    List.repeat (marker_text c, [Some c]) (List.length segs).
Proof.
  intros Hne Hall. induction segs as [|t1 segs IH]; intros t0 p Ht0 Hsegs.
  - simpl. rewrite <- (StrFacts.app_nil_r t0).
    rewrite matchAll_miss by assumption. reflexivity.
  - simpl in Hsegs. apply andb_true_iff in Hsegs as [Ht1 Hsegs].
    cbn [interleave List.length List.repeat].
    rewrite matchAll_miss by assumption.
    rewrite matchAll_hit by assumption.
    f_equal. now apply IH.
Qed.

End MatchFacts.


(** ** Facts about [split], [join] and the marker loop *)

Module LoopFacts.
Import Regex Ref DocuFresh.

Lemma split_nonempty (sep : ascii) (s : string) : JS.split sep s <> [].
Proof.
  destruct s as [|c t]; simpl; [discriminate |].
  destruct (Str.eqc c sep); [discriminate |].
  destruct (JS.split sep t); discriminate.
Qed.

Lemma split_none (sep : ascii) (a : string) :
  Str.all (is_not sep) a = true -> JS.split sep a = [a].
Proof.
  induction a as [|c a IH]; intros H; [reflexivity |].
  simpl in H. apply andb_true_iff in H as [Hc Ha].
  unfold is_not in Hc. apply negb_true_iff in Hc.
  simpl. rewrite Hc. now rewrite IH.
Qed.

Lemma split_first (sep : ascii) (a b : string) :
  Str.all (is_not sep) a = true ->
  JS.split sep (a ++ String sep b) = a :: JS.split sep b.
Proof.
  induction a as [|c a IH]; intros H.
  - simpl. now rewrite StrFacts.eqc_refl.
  - simpl in H. apply andb_true_iff in H as [Hc Ha].
    unfold is_not in Hc. apply negb_true_iff in Hc.
    simpl. rewrite Hc. now rewrite IH.
Qed.

Lemma join_split (sep : ascii) (b : string) :
  JS.join (String sep "") (JS.split sep b) = b.
Proof.
  unfold JS.join. induction b as [|c b IH]; [reflexivity |].
  simpl. destruct (Str.eqc c sep) eqn:E.
  - apply StrFacts.eqc_true in E. subst c.
    destruct (JS.split sep b) as [|h r] eqn:Hs; [now apply split_nonempty in Hs |].
    change (Str.concat_sep (String sep "") ("" :: h :: r))
      with (String sep (Str.concat_sep (String sep "") (h :: r))).
    now rewrite IH.
  - destruct (JS.split sep b) as [|h r] eqn:Hs; [now apply split_nonempty in Hs |].
    rewrite <- IH. destruct r; reflexivity.
Qed.

(** [parse_marker] on a content with a colon: the text before the first
    colon and the text after it. *)
Lemma parse_marker_colon (a b : string) :
  Str.all (is_not ":") a = true ->
  parse_marker (a ++ String ":" b) =
  (JS.trim a, if String.eqb b "" then [] else map JS.trim (JS.split "," b)).
Proof.
  intros H. unfold parse_marker.
  rewrite split_first by assumption. cbn [hd tl].
  now rewrite join_split.
Qed.

Lemma parse_marker_no_colon (a : string) :
  Str.all (is_not ":") a = true -> parse_marker a = (JS.trim a, []).
Proof. intros H. unfold parse_marker. now rewrite split_none. Qed.

Section Steps.
Variable markers : registry.
Variables (result fullMarker content : string) (log : list diagnostic).

Let mt : string * list (option string) := (fullMarker, [Some content]).

Lemma marker_step_returned (f : markerFn) (v : string) :
  lookup markers (fst (parse_marker content)) = Some f ->
  f (snd (parse_marker content)) = Returned v ->
  marker_step markers (result, log) mt =
  ((JS.replace_string result fullMarker v, log), None).
Proof.
  intros Hl Hf. unfold marker_step, mt. cbn [fst snd JS.capture_text Nat.pred nth_error].
  destruct (parse_marker content) as [name params]. cbn [fst snd] in *.
  now rewrite Hl, Hf.
Qed.

Lemma marker_step_thrown (f : markerFn) (message : string) :
  lookup markers (fst (parse_marker content)) = Some f ->
  f (snd (parse_marker content)) = Thrown message ->
  marker_step markers (result, log) mt =
  ((result, (log ++ [(fullMarker, message)])%list), None).
Proof.
  intros Hl Hf. unfold marker_step, mt. cbn [fst snd JS.capture_text Nat.pred nth_error].
  destruct (parse_marker content) as [name params]. cbn [fst snd] in *.
  now rewrite Hl, Hf.
Qed.

Lemma marker_step_unknown :
  lookup markers (fst (parse_marker content)) = None ->
  marker_step markers (result, log) mt = ((result, log), None).
Proof.
  intros Hl. unfold marker_step, mt. cbn [fst snd JS.capture_text Nat.pred nth_error].
  destruct (parse_marker content) as [name params]. cbn [fst snd] in *.
  now rewrite Hl.
Qed.
End Steps.

Lemma replace_string_marker (c v t0 rest : string) :
  Str.all (is_not "{") t0 = true ->
  Str.all (is_not "$") v = true ->
  JS.replace_string (t0 ++ marker_text c ++ rest) (marker_text c) v = t0 ++ v ++ rest.
Proof.
  intros Ht Hv.
  change (marker_text c) with (String "{" (String "{" (c ++ "}}"))).
  now apply MatchFacts.replace_string_first.
Qed.

(** The loop over [k] matches of one marker text, on a text where these are
    the only opening braces: each turn retires the leftmost occurrence. *)
Lemma loop_interleave (markers : registry) (c v : string) (f : markerFn)
    (log : list diagnostic) :
  lookup markers (fst (parse_marker c)) = Some f ->
  f (snd (parse_marker c)) = Returned v ->
  Str.all (is_not "{") v = true ->
  Str.all (is_not "$") v = true ->
  forall (segs : list string) (pre t0 : string),
    Str.all (is_not "{") pre = true ->
    Str.all (is_not "{") t0 = true ->
    forallb (Str.all (is_not "{")) segs = true ->
    marker_loop markers
      (List.repeat (marker_text c, [Some c]) (List.length segs))
      (pre ++ interleave (marker_text c) t0 segs, log) =
    ((pre ++ interleave v t0 segs, log), None).
Proof.
  intros Hl Hf Hv1 Hv2. induction segs as [|t1 segs IH]; intros pre t0 Hpre Ht0 Hsegs.
  - reflexivity.
  - simpl in Hsegs. apply andb_true_iff in Hsegs as [Ht1 Hsegs].
    cbn [List.length List.repeat marker_loop interleave].
    rewrite (marker_step_returned markers _ _ _ _ f v Hl Hf).
    rewrite <- StrFacts.app_assoc.
    rewrite replace_string_marker;
      [| rewrite StrFacts.all_app, Hpre, Ht0; reflexivity | assumption].
    replace ((pre ++ t0) ++ v ++ interleave (marker_text c) t1 segs)
      with (((pre ++ t0) ++ v) ++ interleave (marker_text c) t1 segs)
      by (now rewrite !StrFacts.app_assoc).
    rewrite IH; try assumption.
    + now rewrite !StrFacts.app_assoc.
    + rewrite !StrFacts.all_app, Hpre, Ht0, Hv1. reflexivity.
Qed.

End LoopFacts.


(** ** The properties of [process] *)

Import Regex Ref DocuFresh.

(** *** What a match of the scan looks like *)

Lemma span_not_brace (r : string) :
  exists c tail,
    r = c ++ tail /\ Str.all (is_not "}") c = true /\
    (tail = "" \/ exists t, tail = String "}" t).
Proof.
  induction r as [|a r (c & tail & Hr & Hc & Ht)].
  - exists "", "". repeat split; auto.
  - destruct (is_not "}" a) eqn:Ha.
    + exists (String a c), tail. subst r. repeat split; auto.
      simpl. now rewrite Ha, Hc.
    + exists "", (String a r). repeat split; auto. right.
      unfold is_not in Ha. apply negb_false_iff, StrFacts.eqc_true in Ha.
      subst a. now exists r.
Qed.

(** The greedy loop of [[^}]+] under a continuation that needs a closing
    brace next: only the longest run can succeed. *)
Lemma repeat_opt_run_all (K : cont) (cs : list (option string)) (tail : string) :
  (tail = "" \/ exists t, tail = String "}" t) ->
  (forall p a t, is_not "}" a = true -> K (MState p (String a t) cs) = None) ->
  forall (c : string) (fuel p : nat),
    Str.all (is_not "}") c = true ->
    String.length c <= fuel ->
    repeat_opt not_brace true 1 0 fuel None (MState p (c ++ tail) cs) K =
    K (MState (p + String.length c) tail cs).
Proof.
  intros Htail HK. induction c as [|a c IH]; intros fuel p Hall Hfuel.
  - cbn [append String.length]. rewrite Nat.add_0_r.
    destruct fuel as [|fuel]; [reflexivity |].
    cbn [repeat_opt max_is_zero]. unfold not_brace at 1, reset. cbn [pos rest caps].
    destruct Htail as [-> | [t ->]]; [reflexivity |].
    rewrite MatchFacts.step_char_cons. reflexivity.
  - simpl in Hall, Hfuel. apply andb_true_iff in Hall as [Ha Hc].
    destruct fuel as [|fuel]; [lia |].
    cbn [repeat_opt max_is_zero dec_max].
    unfold not_brace at 1, reset. cbn [rest pos caps append].
    rewrite MatchFacts.step_char_cons, MatchFacts.class_not_brace, Ha,
      MatchFacts.clear_from_none.
    cbn [pos]. replace (Nat.eqb (S p) p) with false
      by (symmetry; apply Nat.eqb_neq; lia).
    rewrite (IH fuel (S p)) by (assumption || lia).
    cbn [String.length]. rewrite Nat.add_succ_r. cbn [Nat.add].
    destruct (K (MState (S (p + String.length c)) tail cs)) eqn:E; [reflexivity |].
    cbn [orelse]. now apply HK.
Qed.

Lemma exec_at_marker_short (p : nat) (rest : string) :
  Str.starts "{{" rest = false -> exec_at markerPattern p rest = None.
Proof.
  intros H. unfold exec_at, markerPattern. cbn [ast ngroups m List.repeat].
  destruct rest as [|x1 rest]; [reflexivity |].
  rewrite MatchFacts.step_char_cons.
  destruct (Str.eqc "{" x1) eqn:E1; [| reflexivity].
  destruct rest as [|x2 rest]; [reflexivity |].
  rewrite MatchFacts.step_char_cons.
  destruct (Str.eqc "{" x2) eqn:E2; [| reflexivity].
  cbn [Str.starts] in H. rewrite E1, E2 in H. discriminate.
Qed.

(** What a match of the scan pattern looks like. *)
Lemma exec_at_marker_inv (p : nat) (rest : string) (len : nat)
    (captures : list (option string)) :
  exec_at markerPattern p rest = Some (len, captures) ->
  exists c tail,
    rest = marker_text c ++ tail /\ c <> "" /\ Str.all (is_not "}") c = true /\
    len = String.length c + 4 /\ captures = [Some c].
Proof.
  intros H.
  destruct (Str.starts "{{" rest) eqn:Hs;
    [| now rewrite exec_at_marker_short in H].
  apply StrFacts.starts_true in Hs. cbn [String.length Str.drop append] in Hs.
  destruct rest as [|x1 [|x2 r2]]; try discriminate.
  injection Hs as -> ->. cbn [Str.drop] in *.
  assert (Hform : exists c tail, String "{" (String "{" r2) = marker_text c ++ tail /\
                                 c <> "" /\ Str.all (is_not "}") c = true).
  { destruct r2 as [|a r3]; [discriminate H |].
    destruct (span_not_brace r3) as (c & tail & -> & Hc & Htail).
    unfold exec_at, markerPattern in H. cbn [ast ngroups m List.repeat] in H.
    rewrite !MatchFacts.step_char_cons in H. cbn [Str.eqc Ascii.eqb Bool.eqb] in H.
    cbn [repeat_min max_is_zero dec_max] in H.
    unfold reset in H. cbn [pos Regex.rest caps clear_from] in H.
    rewrite MatchFacts.step_char_cons, MatchFacts.class_not_brace in H.
    destruct (is_not "}" a) eqn:Ha; [| discriminate H].
    cbn [Regex.rest] in H.
    change (step_char (class_matches true [CChar "}"])) with not_brace in H.
    rewrite (repeat_opt_run_all _ [None] tail Htail) in H.
    - cbn [pos Regex.rest caps Nat.pred set_nth] in H.
      destruct Htail as [-> | [t ->]]; [discriminate H |].
      rewrite MatchFacts.step_char_cons in H. cbn [Str.eqc Ascii.eqb Bool.eqb] in H.
      destruct t as [|y t]; [discriminate H |].
      rewrite MatchFacts.step_char_cons in H.
      destruct (Str.eqc "}" y) eqn:Ey; [| discriminate H].
      apply StrFacts.eqc_true in Ey. subst y.
      exists (String a c), t. repeat split.
      + unfold marker_text. cbn [append]. now rewrite StrFacts.app_assoc.
      + discriminate.
      + simpl. now rewrite Ha, Hc.
    - intros p' b t' Hb. cbn [pos Regex.rest caps].
      rewrite MatchFacts.step_char_cons.
      unfold is_not in Hb. apply negb_true_iff in Hb.
      now rewrite MatchFacts.eqc_sym, Hb.
    - assumption.
    - rewrite StrFacts.length_app. lia. }
  destruct Hform as (c & tail & Hr & Hne & Hc).
  exists c, tail. rewrite Hr in H |- *.
  rewrite MatchFacts.exec_at_marker_hit in H by assumption.
  injection H as <- <-. repeat split; assumption.
Qed.

Lemma matchAll_loop_In (re : RegExp) (mt : string * list (option string)) :
  forall (r : string) (p skip : nat),
    In mt (JS.matchAll_loop re p r skip) ->
    exists pre rest' p' len captures,
      r = pre ++ rest' /\
      exec_at re p' rest' = Some (len, captures) /\
      mt = (Str.take len rest', captures).
Proof.
  assert (Hcons : forall c t,
            (exists pre rest' p' len captures,
                t = pre ++ rest' /\ exec_at re p' rest' = Some (len, captures) /\
                mt = (Str.take len rest', captures)) ->
            exists pre rest' p' len captures,
              String c t = pre ++ rest' /\ exec_at re p' rest' = Some (len, captures) /\
              mt = (Str.take len rest', captures)).
  { intros c t (pre & rest' & p' & len & captures & -> & He & Hm).
    now exists (String c pre), rest', p', len, captures. }
  induction r as [|c t IH]; intros p skip Hin.
  - destruct skip; cbn [JS.matchAll_loop] in Hin; [| contradiction].
    destruct (exec_at re p "") as [[len captures]|] eqn:He; [| contradiction].
    destruct Hin as [<- | []]. now exists "", "", p, len, captures.
  - destruct skip as [|skip]; cbn [JS.matchAll_loop] in Hin.
    + destruct (exec_at re p (String c t)) as [[len captures]|] eqn:He.
      * destruct Hin as [<- | Hin].
        -- now exists "", (String c t), p, len, captures.
        -- apply Hcons. exact (IH _ _ Hin).
      * apply Hcons. exact (IH _ _ Hin).
    + apply Hcons. exact (IH _ _ Hin).
Qed.

(** With a plain key, the turn of the custom-data loop replaces every
    occurrence of the literal [{{key}}]. *)
Lemma custom_step_plain (key v text : string) :
  plain_key key = true ->
  Str.all (is_not "$") v = true ->
  custom_step text (key, SString v) = Ok (replace_every text (marker_text key) v).
Proof.
  intros Hk Hv. unfold custom_step.
  change ("{{" ++ key ++ "}}") with (marker_text key).
  rewrite ParseFacts.compile_plain_key by assumption.
  cbn [bind String_]. now rewrite MatchFacts.replace_regexp_lit.
Qed.

Lemma replace_every_one (key v t0 t1 : string) :
  Str.all (is_not "{") t0 = true ->
  Str.all (is_not "{") t1 = true ->
  replace_every (t0 ++ marker_text key ++ t1) (marker_text key) v = t0 ++ v ++ t1.
Proof.
  intros H0 H1. unfold replace_every.
  change (marker_text key) with (String "{" (String "{" (key ++ "}}"))).
  rewrite MatchFacts.replace_every_miss by assumption.
  rewrite MatchFacts.replace_every_hit.
  now rewrite MatchFacts.replace_every_none.
Qed.

(** C1 (evaluation at the failing input): with the key ["("] in the custom
    data, [process] does not return: [new RegExp("{{(}}", 'g')] raises a
    SyntaxError, whatever the text, the value and the registry. *)
Theorem process_raises_on_unbalanced_key (markers : registry) (text : string)
    (value : scalar) :
  process markers text [("(", value)] = SyntaxError "Unterminated group".
Proof. reflexivity. Qed.

(** [process] returns for custom data whose keys are all plain. *)
Lemma replaceCustomData_plain_returns (data : customData) :
  forallb (fun e => plain_key (fst e)) data = true ->
  forall text, exists result, replaceCustomData text data = Ok result.
Proof.
  induction data as [|[key value] data IH]; intros H text.
  - now exists text.
  - simpl in H. apply andb_true_iff in H as [Hk Hd].
    cbn [replaceCustomData custom_step].
    change ("{{" ++ key ++ "}}") with (marker_text key).
    rewrite ParseFacts.compile_plain_key by assumption.
    cbn [bind]. now apply IH.
Qed.

(** C2 (evaluation at the failing input): the key ["a.c"] is read as a
    pattern, so the text [{{abc}}], in which the literal [{{a.c}}] does not
    occur, is replaced, and with the key ["a+"] the literal [{{a+}}] is not. *)
Theorem key_is_read_as_pattern (markers : registry) :
  occurs "{{a.c}}" "{{abc}}" = false /\
  process markers "{{abc}}" [("a.c", SString "X")] = Ok ("X", []) /\
  replaceCustomData "{{a+}}" [("a+", SString "X")] = Ok "{{a+}}".
Proof. repeat split; reflexivity. Qed.

(** C3 (evaluation at the failing input): the value is read as a
    replacement pattern: ["$$5"] is inserted as ["$5"], and ["$&"] as the
    matched marker text. *)
Theorem value_is_read_as_replacement_pattern (markers : registry) :
  process markers "{{price}}" [("price", SString "$$5")] = Ok ("$5", []) /\
  replaceCustomData "{{k}}" [("k", SString "<$&>")] = Ok "<{{k}}>".
Proof. split; reflexivity. Qed.

(** C4 (evaluation at the failing input): for the keys ["a+"] and ["1"] the
    custom data does not win: the marker text is not matched by the pattern
    built from the key and comes back unchanged, and a marker registered
    under the name ["a+"] is the one that resolves it. *)
Theorem custom_key_not_matched :
  process Samples.builtins "{{a+}}" [("a+", SString "A")] = Ok ("{{a+}}", []) /\
  process Samples.builtins "{{1}}" [("1", SString "A")] = Ok ("{{1}}", []) /\
  process Samples.plus "{{a+}}" [("a+", SString "A")] = Ok ("M", []).
Proof. repeat split; reflexivity. Qed.

(** For a plain key the custom data wins, whatever the registry holds. *)
Lemma custom_data_shadows_plain_key (markers : registry) (x : string) :
  plain_key x = true ->
  process markers (marker_text x) [(x, SString "A")] = Ok ("A", []).
Proof.
  intros H. unfold process. cbn [replaceCustomData].
  rewrite custom_step_plain by (assumption || reflexivity).
  cbn [bind].
  pose proof (replace_every_one x "A" "" "" eq_refl eq_refl) as E.
  cbn [append] in E. rewrite StrFacts.app_nil_r in E. rewrite E.
  reflexivity.
Qed.

(** C7 (evaluation at the failing input): ["constructor"] is no entry of
    the registry, yet the lookup on the plain object finds the inherited
    function and the marker is replaced. *)
Theorem inherited_name_is_replaced (host : string -> markerFn) :
  getBuiltInMarkers host "constructor" = None /\
  process (getBuiltInMarkers host) "{{constructor}}" [] = Ok ("[object Object]", []).
Proof. split; reflexivity. Qed.

(** The unknown marker of the specification's example is left as it is. *)
Lemma unknown_marker_example (host : string -> markerFn) :
  process (getBuiltInMarkers host) "{{totally_unknown_xyz}}" [] =
  Ok ("{{totally_unknown_xyz}}", []).
Proof. reflexivity. Qed.

Lemma replace_every_interleave (c v : string) :
  forall (segs : list string) (t0 : string),
    Str.all (is_not "{") t0 = true ->
    forallb (Str.all (is_not "{")) segs = true ->
    replace_every (interleave (marker_text c) t0 segs) (marker_text c) v =
    interleave v t0 segs.
Proof.
  unfold replace_every.
  change (marker_text c) with (String "{" (String "{" (c ++ "}}"))).
  induction segs as [|t1 segs IH]; intros t0 Ht0 Hsegs.
  - now apply MatchFacts.replace_every_none.
  - simpl in Hsegs. apply andb_true_iff in Hsegs as [Ht1 Hsegs].
    cbn [interleave].
    rewrite MatchFacts.replace_every_miss by assumption.
    rewrite MatchFacts.replace_every_hit.
    now rewrite IH.
Qed.

(** The built-in pass on a text whose only opening braces are those of
    [k] occurrences of one marker text. *)
Lemma builtin_pass_on_interleave (markers : registry) (c : string)
    (f : markerFn) (v t0 : string) (segs : list string) :
  c <> "" ->
  Str.all (is_not "}") c = true ->
  lookup markers (fst (parse_marker c)) = Some f ->
  f (snd (parse_marker c)) = Returned v ->
  Str.all (is_not "{") v = true ->
  Str.all (is_not "$") v = true ->
  Str.all (is_not "{") t0 = true ->
  forallb (Str.all (is_not "{")) segs = true ->
  replaceBuiltInMarkers markers (interleave (marker_text c) t0 segs) =
  Ok (interleave v t0 segs, []).
Proof.
  intros Hne Hc Hl Hf Hv1 Hv2 Ht0 Hsegs.
  unfold replaceBuiltInMarkers, replaceBuiltInMarkers_trace, JS.matchAll.
  rewrite MatchFacts.matchAll_interleave by assumption.
  pose proof (LoopFacts.loop_interleave markers c v f [] Hl Hf Hv1 Hv2
                segs "" t0 eq_refl Ht0 Hsegs) as E.
  cbn [append] in E. now rewrite E.
Qed.

Lemma cut_first_none (sep : ascii) (a : string) :
  Str.all (is_not sep) a = true -> cut_first sep a = None.
Proof.
  induction a as [|c a IH]; intros H; [reflexivity |].
  simpl in H. apply andb_true_iff in H as [Hc Ha].
  unfold is_not in Hc. apply negb_true_iff in Hc.
  simpl. now rewrite Hc, IH.
Qed.

Lemma cut_first_some (sep : ascii) (a b : string) :
  Str.all (is_not sep) a = true -> cut_first sep (a ++ String sep b) = Some (a, b).
Proof.
  induction a as [|c a IH]; intros H.
  - simpl. now rewrite StrFacts.eqc_refl.
  - simpl in H. apply andb_true_iff in H as [Hc Ha].
    unfold is_not in Hc. apply negb_true_iff in Hc.
    simpl. now rewrite Hc, IH.
Qed.

(** C6 (counterexample): when nothing follows the first colon, the source
    yields no parameter at all, where splitting the empty text on commas
    yields one empty parameter. *)
Lemma empty_parameter_text_gives_no_parameter :
  parse_marker "capitalize:" = ("capitalize", []) /\
  claimed_parse_marker "capitalize:" = ("capitalize", [""]) /\
  parse_marker "capitalize:" <> claimed_parse_marker "capitalize:".
Proof. split; [reflexivity | split; [reflexivity | discriminate]]. Qed.

(** C6 (amended): the content is cut at its first colon only.  The trimmed
    text before it is the name.  The text after it, later colons included,
    is split on commas into trimmed parameters unless it is empty, in which
    case, as when there is no colon, there are no parameters. *)
Theorem marker_parsed_at_first_colon (a b : string) :
  Str.all (is_not ":") a = true ->
  parse_marker a = (JS.trim a, []) /\
  parse_marker (a ++ String ":" b) =
    (JS.trim a, if String.eqb b "" then [] else map JS.trim (JS.split "," b)) /\
  (b <> "" -> parse_marker (a ++ String ":" b) = claimed_parse_marker (a ++ String ":" b)).
Proof.
  intros H. repeat split.
  - now apply LoopFacts.parse_marker_no_colon.
  - now apply LoopFacts.parse_marker_colon.
  - intros Hb. rewrite LoopFacts.parse_marker_colon by assumption.
    unfold claimed_parse_marker. rewrite cut_first_some by assumption.
    destruct (String.eqb_spec b ""); [contradiction | reflexivity].
Qed.

Lemma marker_parsed_at_first_colon_witness :
  parse_marker " days_until " = ("days_until", []) /\
  parse_marker " days_until : 2026-12-31T10:30:00 , x" =
    ("days_until", ["2026-12-31T10:30:00"; "x"]) /\
  (" 2026-12-31T10:30:00 , x" <> "" ->
   parse_marker " days_until : 2026-12-31T10:30:00 , x" =
   claimed_parse_marker " days_until : 2026-12-31T10:30:00 , x").
Proof.
  apply (marker_parsed_at_first_colon " days_until " " 2026-12-31T10:30:00 , x").
  reflexivity.
Defined.

Lemma marker_step_resolution (markers : registry) (result : string)
    (log : list diagnostic) (mt : string * list (option string)) :
  marker_step markers (result, log) mt =
  match resolution markers mt with
  | Some (Returned v) => ((JS.replace_string result (fst mt) v, log), None)
  | Some (Thrown message) => ((result, (log ++ [(fst mt, message)])%list), None)
  | Some ThrownNullish => ((result, log), Some host_type_error)
  | None => ((result, log), None)
  end.
Proof.
  unfold marker_step, resolution.
  destruct (parse_marker (JS.capture_text (snd mt) 1)) as [name params].
  destruct (lookup markers name); reflexivity.
Qed.


(** *** Text that carries no [$] keeps none under trimming and case mapping *)

Lemma all_trimStart (p : ascii -> bool) (s : string) :
  Str.all p s = true -> Str.all p (JS.trimStart s) = true.
Proof.
  induction s as [|c s IH]; intros H; [reflexivity |].
  simpl in *. apply andb_true_iff in H as [Hc Hs].
  destruct (Str.is_space c); [now apply IH | simpl; now rewrite Hc, Hs].
Qed.

Lemma all_rev_onto (p : ascii -> bool) (s : string) :
  forall acc, Str.all p s = true -> Str.all p acc = true ->
              Str.all p (Str.rev_onto s acc) = true.
Proof.
  induction s as [|c s IH]; intros acc Hs Hacc; [exact Hacc |].
  simpl in *. apply andb_true_iff in Hs as [Hc Hs].
  apply IH; [assumption | simpl; now rewrite Hc, Hacc].
Qed.

Lemma all_trim (p : ascii -> bool) (s : string) :
  Str.all p s = true -> Str.all p (JS.trim s) = true.
Proof.
  intros H. unfold JS.trim, JS.trimEnd, Str.rev.
  apply all_rev_onto; [| reflexivity].
  apply all_trimStart. apply all_rev_onto; [| reflexivity].
  now apply all_trimStart.
Qed.

Lemma all_map_chars (p : ascii -> bool) (f : ascii -> ascii) (s : string) :
  (forall c, p c = true -> p (f c) = true) ->
  Str.all p s = true -> Str.all p (JS.map_chars f s) = true.
Proof.
  intros Hf. induction s as [|c s IH]; intros H; [reflexivity |].
  simpl in *. apply andb_true_iff in H as [Hc Hs].
  now rewrite (Hf c Hc), IH.
Qed.

Lemma upper_char_no_dollar (c : ascii) :
  is_not "$" c = true -> is_not "$" (JS.upper_char c) = true.
Proof. intros H. ParseFacts.by_ascii c. Qed.

Lemma lower_char_no_dollar (c : ascii) :
  is_not "$" c = true -> is_not "$" (JS.lower_char c) = true.
Proof. intros H. ParseFacts.by_ascii c. Qed.

Lemma capitalized_no_dollar (t : string) :
  Str.all (is_not "$") t = true ->
  Str.all (is_not "$")
    (JS.toUpperCase (JS.charAt0 t) ++ JS.toLowerCase (JS.slice1 t)) = true.
Proof.
  intros H. rewrite StrFacts.all_app. apply andb_true_iff. split.
  - apply all_map_chars; [exact upper_char_no_dollar |].
    destruct t as [|c t]; [reflexivity |]. simpl in *.
    apply andb_true_iff in H as [Hc _]. now rewrite Hc.
  - apply all_map_chars; [exact lower_char_no_dollar |].
    destruct t as [|c t]; [reflexivity |]. simpl in *.
    now apply andb_true_iff in H as [_ Ht].
Qed.

(** The scan of a text that is one marker: one match. *)
Lemma matchAll_single (c : string) :
  c <> "" ->
  Str.all (is_not "}") c = true ->
  JS.matchAll (marker_text c) markerPattern = [(marker_text c, [Some c])].
Proof.
  intros Hne Hc.
  pose proof (MatchFacts.matchAll_interleave c Hne Hc [""] "" 0 eq_refl eq_refl) as E.
  cbn [interleave append List.length List.repeat] in E.
  rewrite StrFacts.app_nil_r in E. exact E.
Qed.

Lemma replace_string_whole (c v : string) :
  Str.all (is_not "$") v = true ->
  JS.replace_string (marker_text c) (marker_text c) v = v.
Proof.
  intros Hv.
  pose proof (LoopFacts.replace_string_marker c v "" "" eq_refl Hv) as E.
  cbn [append] in E. now rewrite !StrFacts.app_nil_r in E.
Qed.

Lemma parse_marker_capitalize (t : string) :
  t <> "" ->
  Str.all (is_not ",") t = true ->
  parse_marker ("capitalize:" ++ t) = ("capitalize", [JS.trim t]).
Proof.
  intros Hne Hc.
  change ("capitalize:" ++ t) with ("capitalize" ++ String ":" t).
  rewrite LoopFacts.parse_marker_colon by reflexivity.
  destruct (String.eqb_spec t ""); [contradiction |].
  now rewrite LoopFacts.split_none.
Qed.

(** C9 (counterexample): [{{capitalize:}}] is not replaced by the empty
    text: the function is called without a parameter, raises, and the
    marker is left as it is.  And a text with a comma is cut into several
    parameters, of which [capitalize] reads the first. *)
Lemma capitalize_without_text_left_unchanged :
  (process Samples.builtins "{{capitalize:}}" [] =
     Ok ("{{capitalize:}}", [("{{capitalize:}}", host_type_error)]) /\
   "{{capitalize:}}" <> "") /\
  (process Samples.builtins "{{capitalize:one, two}}" [] = Ok ("One", []) /\
   "One" <> "One, two").
Proof. repeat split; (reflexivity || discriminate). Qed.

(** C9 (amended): for a non-empty ASCII parameter text [t] without ['}'],
    [','] and ['$'], [{{capitalize:t}}] resolves to the trimmed [t] with its
    first character in upper case and the rest in lower case; and
    [{{capitalize:}}] is left as it is, with a diagnostic. *)
Theorem capitalize_marker (host : string -> markerFn) (t : string) :
  t <> "" ->
  Str.all (is_not "}") t = true ->
  Str.all (is_not ",") t = true ->
  Str.all (is_not "$") t = true ->
  Str.all Str.is_ascii t = true ->
  process (getBuiltInMarkers host) ("{{capitalize:" ++ t ++ "}}") [] =
    Ok (JS.toUpperCase (JS.charAt0 (JS.trim t)) ++ JS.toLowerCase (JS.slice1 (JS.trim t)), []) /\
  process (getBuiltInMarkers host) "{{capitalize:}}" [] =
    Ok ("{{capitalize:}}", [("{{capitalize:}}", host_type_error)]).
Proof.
  intros Hne Hb Hc Hd _. split; [| reflexivity].
  change ("{{capitalize:" ++ t ++ "}}") with (marker_text ("capitalize:" ++ t)).
  unfold process, replaceBuiltInMarkers, replaceBuiltInMarkers_trace.
  cbn [replaceCustomData bind].
  rewrite matchAll_single;
    [| destruct t; discriminate | rewrite StrFacts.all_app, Hb; reflexivity].
  cbn [marker_loop].
  rewrite (LoopFacts.marker_step_returned _ _ _ _ _ capitalize
             (JS.toUpperCase (JS.charAt0 (JS.trim t)) ++
              JS.toLowerCase (JS.slice1 (JS.trim t)))).
  - cbn [leave]. rewrite replace_string_whole; [reflexivity |].
    apply capitalized_no_dollar. now apply all_trim.
  - now rewrite parse_marker_capitalize.
  - now rewrite parse_marker_capitalize.
Qed.

Lemma capitalize_marker_witness :
  process (getBuiltInMarkers Samples.host) "{{capitalize:hello world}}" [] =
    Ok ("Hello world", []) /\
  process (getBuiltInMarkers Samples.host) "{{capitalize:}}" [] =
    Ok ("{{capitalize:}}", [("{{capitalize:}}", host_type_error)]).
Proof.
  apply (capitalize_marker Samples.host "hello world"); try reflexivity.
  discriminate.
Defined.

(** *** Marker texts side by side *)

Lemma app_inv_sep (x : ascii) (a : string) :
  forall b r1 r2,
    Str.all (is_not x) a = true ->
    Str.all (is_not x) b = true ->
    a ++ String x r1 = b ++ String x r2 -> a = b.
Proof.
  induction a as [|c a IH]; intros [|d b] r1 r2 Ha Hb E; simpl in *.
  - reflexivity.
  - injection E as E1 _. subst d. apply andb_true_iff in Hb as [Hd _].
    unfold is_not in Hd. now rewrite StrFacts.eqc_refl in Hd.
  - injection E as E1 _. subst c. apply andb_true_iff in Ha as [Hc _].
    unfold is_not in Hc. now rewrite StrFacts.eqc_refl in Hc.
  - injection E as E1 E2. subst d.
    apply andb_true_iff in Ha as [_ Ha]. apply andb_true_iff in Hb as [_ Hb].
    f_equal. exact (IH b r1 r2 Ha Hb E2).
Qed.

Lemma starts_other_marker (k j t1 : string) :
  k <> j ->
  Str.all (is_not "}") k = true ->
  Str.all (is_not "}") j = true ->
  Str.starts (marker_text j) (marker_text k ++ t1) = false.
Proof.
  intros Hkj Hk Hj.
  destruct (Str.starts (marker_text j) (marker_text k ++ t1)) eqn:E; [| reflexivity].
  apply StrFacts.starts_true in E. exfalso. apply Hkj.
  unfold marker_text in E. cbn [append] in E.
  injection E as E. rewrite !StrFacts.app_assoc in E. cbn [append] in E.
  exact (app_inv_sep "}" k j _ _ Hk Hj E).
Qed.

(** ** The built-in pass, match by match *)

Import Scan Ref2.

Lemma marker_start_hit (c t : string) :
  c <> "" -> Str.all (is_not "}") c = true -> marker_start (marker_text c ++ t) = true.
Proof.
  intros Hne Hc. unfold marker_start.
  now rewrite MatchFacts.exec_at_marker_hit.
Qed.

Lemma marker_start_inv (s : string) :
  marker_start s = true ->
  exists c tail, s = marker_text c ++ tail /\ c <> "" /\ Str.all (is_not "}") c = true.
Proof.
  unfold marker_start.
  destruct (exec_at markerPattern 0 s) as [[len caps]|] eqn:E; [| discriminate].
  intros _. apply exec_at_marker_inv in E as (c & tail & H1 & H2 & H3 & _).
  now exists c, tail.
Qed.

Lemma exec_none_start (p : nat) (s : string) :
  exec_at markerPattern p s = None -> marker_start s = false.
Proof.
  intros H. destruct (marker_start s) eqn:E; [| reflexivity].
  apply marker_start_inv in E as (c & tail & -> & Hne & Hc).
  rewrite MatchFacts.exec_at_marker_hit in H by assumption. discriminate.
Qed.

(** The pieces of a scan are valid, make up the text, and their markers
    are the matches of [matchAll]. *)
Lemma pieces_loop_spec :
  forall (r : string) (p skip : nat),
    valid (pieces_loop p r skip) /\
    source (pieces_loop p r skip) = Str.drop skip r /\
    marks (pieces_loop p r skip) = JS.matchAll_loop markerPattern p r skip.
Proof.
  induction r as [|c t IH]; intros p skip.
  - destruct skip; cbn; auto.
  - destruct skip as [|skip]; cbn [pieces_loop JS.matchAll_loop Str.drop].
    + destruct (exec_at markerPattern p (String c t)) as [[len caps]|] eqn:E.
      * apply exec_at_marker_inv in E as (k & tail & Hr & Hne & Hk & -> & ->).
        cbn [JS.capture_text Nat.pred nth_error].
        destruct (IH (S p) (Nat.pred (String.length k + 4))) as (Hv & Hs & Hm).
        cbn [valid source marks flat_map]. fold (marks (pieces_loop (S p) t (Nat.pred (String.length k + 4)))).
        rewrite Hs, Hm. repeat split; try assumption.
        -- rewrite Hr.
           change (marker_text k ++ tail)
             with (String "{" (String "{" (k ++ "}}") ++ tail)) in Hr |- *.
           injection Hr as -> ->. f_equal.
           replace (Nat.pred (String.length k + 4))
             with (String.length (String "{" (k ++ "}}")))
             by (cbn [String.length]; rewrite StrFacts.length_app; cbn; lia).
           exact (f_equal (append (marker_text k))
                    (StrFacts.drop_app (String "{" (k ++ "}}")) tail)).
        -- cbn [app]. f_equal. unfold match_of. f_equal.
           rewrite Hr, <- MatchFacts.marker_text_length. now rewrite StrFacts.take_app.
      * destruct (IH (S p) 0) as (Hv & Hs & Hm). cbn [Str.drop] in Hs.
        cbn [valid source marks flat_map app].
        fold (marks (pieces_loop (S p) t 0)).
        rewrite Hs, Hm. repeat split; try assumption.
        now apply (exec_none_start p).
    + apply IH.
Qed.

Lemma source_app (xs ys : list piece) : source (xs ++ ys) = source xs ++ source ys.
Proof.
  induction xs as [|[c|k] xs IH]; cbn [app source append]; [reflexivity | |].
  - now rewrite IH.
  - now rewrite IH, StrFacts.app_assoc.
Qed.

Lemma settle_app (markers : registry) (xs ys : list piece) :
  settle markers (xs ++ ys) = settle markers xs ++ settle markers ys.
Proof.
  induction xs as [|[c|k] xs IH]; cbn [app settle append]; [reflexivity | |].
  - now rewrite IH.
  - now rewrite IH, StrFacts.app_assoc.
Qed.

Lemma before_app (ws1 ws2 : list worked) : before (ws1 ++ ws2) = before ws1 ++ before ws2.
Proof.
  induction ws1 as [|[c|k|k v] ws1 IH]; cbn [app before append]; try reflexivity;
    rewrite IH; try reflexivity; now rewrite StrFacts.app_assoc.
Qed.

Lemma current_app (ws1 ws2 : list worked) :
  current (ws1 ++ ws2) = current ws1 ++ current ws2.
Proof.
  induction ws1 as [|[c|k|k v] ws1 IH]; cbn [app current append]; try reflexivity;
    rewrite IH; try reflexivity; now rewrite StrFacts.app_assoc.
Qed.

Lemma before_work_with (sel : string -> option string) (xs : list piece) :
  before (map (work_with sel) xs) = source xs.
Proof.
  induction xs as [|[c|k] xs IH]; cbn [map work_with before source]; [reflexivity | |].
  - now rewrite IH.
  - destruct (sel k); cbn [before]; now rewrite IH.
Qed.

Lemma current_kept (xs : list piece) :
  current (map (work_with (fun _ => None)) xs) = source xs.
Proof.
  induction xs as [|[c|k] xs IH]; cbn [map work_with current source]; [reflexivity | |];
    now rewrite IH.
Qed.

Lemma current_settle (markers : registry) (xs : list piece) :
  current (map (work_with (value_of markers)) xs) = settle markers xs.
Proof.
  induction xs as [|[c|k] xs IH]; cbn [map work_with current settle]; [reflexivity | |].
  - now rewrite IH.
  - destruct (value_of markers k); cbn [current]; now rewrite IH.
Qed.

Lemma valid_In (xs : list piece) (k : string) :
  valid xs -> In (Mark k) xs -> k <> "" /\ Str.all (is_not "}") k = true.
Proof.
  induction xs as [|[c|k'] xs IH]; cbn [valid In]; intros Hv Hin; [contradiction | |].
  - destruct Hin as [Hin | Hin]; [discriminate | apply IH; tauto].
  - destruct Hin as [Hin | Hin]; [injection Hin as ->; tauto | apply IH; tauto].
Qed.

Lemma wvalid_map (sel : string -> option string) (xs : list piece) :
  valid xs ->
  (forall k v, In (Mark k) xs -> sel k = Some v -> inert v = true) ->
  wvalid (map (work_with sel) xs).
Proof.
  induction xs as [|[c|k] xs IH]; cbn [map work_with valid]; intros Hv Hs; [exact I | |].
  - cbn [wvalid]. rewrite before_work_with. split; [tauto |].
    apply IH; [tauto |]. intros k v Hin. apply Hs. now right.
  - assert (Hrest : wvalid (map (work_with sel) xs))
      by (apply IH; [tauto |]; intros k' v Hin; apply Hs; now right).
    destruct (sel k) as [v|] eqn:E; cbn [wvalid]; repeat split; try tauto.
    apply (Hs k v); [now left | exact E].
Qed.

Lemma wvalid_work (sel1 sel2 : string -> option string) (xs ys : list piece) :
  valid (xs ++ ys) ->
  (forall k v, In (Mark k) xs -> sel1 k = Some v -> inert v = true) ->
  (forall k v, In (Mark k) ys -> sel2 k = Some v -> inert v = true) ->
  wvalid (map (work_with sel1) xs ++ map (work_with sel2) ys).
Proof.
  induction xs as [|[c|k] xs IH]; cbn [app map work_with valid]; intros Hv H1 H2.
  - now apply wvalid_map.
  - cbn [wvalid]. rewrite before_app, !before_work_with, <- source_app.
    split; [tauto |]. apply IH; [tauto | | assumption].
    intros k v Hin. apply H1. now right.
  - assert (Hrest : wvalid (map (work_with sel1) xs ++ map (work_with sel2) ys))
      by (apply IH; [tauto | | assumption]; intros k' v Hin; apply H1; now right).
    destruct (sel1 k) as [v|] eqn:E; cbn [wvalid]; repeat split; try tauto.
    apply (H1 k v); [now left | exact E].
Qed.

Lemma inert_inv (v : string) :
  inert v = true ->
  exists a v', v = String a v' /\ is_not "}" a = true /\ is_not "{" a = true /\
               Str.all (is_not "{") v = true /\ Str.all (is_not "$") v = true.
Proof.
  destruct v as [|a v']; [discriminate |]. unfold inert. intros H.
  apply andb_true_iff in H as [H H3]. apply andb_true_iff in H as [H1 H2].
  exists a, v'. repeat split; try assumption.
  cbn [Str.all] in H2. now apply andb_true_iff in H2.
Qed.

(** The run lemma: where the working text shows a run without ['}'] closed
    by [}}], the text before the loop shows one too. *)
Lemma closing_run (ws : list worked) :
  wvalid ws ->
  forall c0 tail,
    Str.all (is_not "}") c0 = true ->
    current ws = c0 ++ String "}" (String "}" tail) ->
    exists c0' tail',
      before ws = c0' ++ String "}" (String "}" tail') /\
      Str.all (is_not "}") c0' = true /\
      (c0 <> "" -> c0' <> "").
Proof.
  induction ws as [|[x|k|k v] ws IH]; intros Hv c0 tail Hc0 E.
  - destruct c0; discriminate E.
  - cbn [wvalid] in Hv. destruct Hv as [_ Hv]. cbn [current before] in *.
    destruct c0 as [|y c0r]; cbn [append] in E.
    + injection E as -> E.
      destruct ws as [|[y|k|k v] ws']; cbn [current] in E.
      * discriminate E.
      * injection E as -> _. exists "", (before ws'). now repeat split.
      * discriminate E.
      * cbn [wvalid] in Hv. destruct Hv as (_ & _ & Hi & _).
        apply inert_inv in Hi as (a & v' & -> & Ha & _).
        cbn [append] in E. injection E as -> _. discriminate Ha.
    + injection E as -> E. cbn [Str.all] in Hc0. apply andb_true_iff in Hc0 as [Hy Hc0].
      destruct (IH Hv c0r tail Hc0 E) as (c0' & tail' & Eb & Hc' & _).
      exists (String y c0'), tail'. rewrite Eb. repeat split.
      * cbn [Str.all]. now rewrite Hy, Hc'.
      * discriminate.
  - cbn [wvalid] in Hv. destruct Hv as (Hne & Hk & _). cbn [before].
    exists (String "{" (String "{" k)), (before ws). repeat split.
    + unfold marker_text. cbn [append]. now rewrite !StrFacts.app_assoc.
    + cbn [Str.all]. now rewrite Hk.
    + discriminate.
  - cbn [wvalid] in Hv. destruct Hv as (Hne & Hk & _). cbn [before].
    exists (String "{" (String "{" k)), (before ws). repeat split.
    + unfold marker_text. cbn [append]. now rewrite !StrFacts.app_assoc.
    + cbn [Str.all]. now rewrite Hk.
    + discriminate.
Qed.

(** No match begins, in the working text, at a character that was outside
    the matches of the scan. *)
Lemma no_marker_at_lone (c : ascii) (ws : list worked) :
  wvalid (WLone c :: ws) -> marker_start (String c (current ws)) = false.
Proof.
  cbn [wvalid]. intros [Hc Hv].
  destruct (marker_start (String c (current ws))) eqn:E; [| reflexivity].
  exfalso. apply marker_start_inv in E as (c0 & tail & E & Hne & Hc0).
  change (marker_text c0 ++ tail)
    with (String "{" (String "{" (c0 ++ "}}") ++ tail)) in E.
  injection E as -> E.
  destruct ws as [|[y|k|k v] ws']; cbn [current before] in *.
  - discriminate E.
  - cbn [append] in E. injection E as -> E. cbn [wvalid] in Hv. destruct Hv as [_ Hv].
    rewrite StrFacts.app_assoc in E.
    destruct (closing_run ws' Hv c0 tail Hc0 E) as (c0' & tail' & Eb & Hc' & Hn).
    rewrite Eb in Hc.
    change (String "{" (String "{" (c0' ++ String "}" (String "}" tail'))))
      with (String "{" (String "{" (c0' ++ "}}" ++ tail'))) in Hc.
    rewrite <- StrFacts.app_assoc in Hc.
    change (String "{" (String "{" ((c0' ++ "}}") ++ tail')))
      with (marker_text c0' ++ tail') in Hc.
    rewrite marker_start_hit in Hc by auto. discriminate Hc.
  - cbn [wvalid] in Hv. destruct Hv as (Hkne & Hk & _).
    assert (Ht : String "{" (marker_text k ++ before ws') =
                 marker_text (String "{" k) ++ before ws') by reflexivity.
    rewrite Ht in Hc. rewrite marker_start_hit in Hc; [discriminate Hc | discriminate |].
    cbn [Str.all]. now rewrite Hk.
  - cbn [wvalid] in Hv. destruct Hv as (_ & _ & Hi & _).
    apply inert_inv in Hi as (a & v' & -> & _ & Ha & _).
    cbn [append] in E. injection E as -> _. discriminate Ha.
Qed.

Lemma starts_marker_start (k s : string) :
  k <> "" -> Str.all (is_not "}") k = true ->
  Str.starts (marker_text k) s = true -> marker_start s = true.
Proof.
  intros Hne Hk H. apply StrFacts.starts_true in H. rewrite H.
  now apply marker_start_hit.
Qed.

Lemma split_at_first_step (pat : string) (c : ascii) (t : string) :
  Str.starts pat (String c t) = false ->
  JS.split_at_first pat (String c t) =
  match JS.split_at_first pat t with
  | Some (a, b) => Some (String c a, b)
  | None => None
  end.
Proof. intros H. cbn [JS.split_at_first]. now rewrite H. Qed.

Lemma starts_second_char (x y a : ascii) (p s : string) :
  is_not "{" a = true ->
  Str.starts (String x (String "{" p)) (String y (String a s)) = false.
Proof.
  intros Ha. unfold is_not in Ha. apply negb_true_iff in Ha.
  cbn [Str.starts]. rewrite (MatchFacts.eqc_sym "{" a), Ha.
  cbn [andb]. apply andb_false_r.
Qed.

(** The first occurrence of a marker text in the working text does not
    begin in a stretch of worked pieces that are apart from it. *)
Lemma first_occurrence_after (k : string) :
  k <> "" -> Str.all (is_not "}") k = true ->
  forall ws1 ws2,
    wvalid (ws1 ++ ws2) -> Forall (apart k) ws1 ->
    JS.split_at_first (marker_text k) (current (ws1 ++ ws2)) =
    match JS.split_at_first (marker_text k) (current ws2) with
    | Some (x, y) => Some (current ws1 ++ x, y)
    | None => None
    end.
Proof.
  intros Hne Hk. induction ws1 as [|w ws1 IH]; intros ws2 Hv Ha.
  - cbn [app current append].
    now destruct (JS.split_at_first (marker_text k) (current ws2)) as [[x y]|].
  - inversion Ha as [|? ? Hw Ha']; subst.
    destruct w as [c|k'|k' v]; cbn [app current].
    + pose proof (no_marker_at_lone c (ws1 ++ ws2) Hv) as Hno.
      assert (Hs : Str.starts (marker_text k) (String c (current (ws1 ++ ws2))) = false).
      { destruct (Str.starts (marker_text k) (String c (current (ws1 ++ ws2)))) eqn:E;
          [| reflexivity].
        apply (starts_marker_start k _ Hne Hk) in E. congruence. }
      rewrite split_at_first_step by exact Hs.
      cbn [app wvalid] in Hv. rewrite (IH ws2) by tauto.
      now destruct (JS.split_at_first (marker_text k) (current ws2)) as [[x y]|].
    + cbn [app wvalid] in Hv. destruct Hv as (Hne' & Hk' & Hv).
      cbn [apart] in Hw. destruct Hw as [Hkk Hopen].
      change (marker_text k' ++ current (ws1 ++ ws2))
        with (String "{" (String "{" ((k' ++ "}}") ++ current (ws1 ++ ws2)))).
      rewrite split_at_first_step.
      2:{ change (String "{" (String "{" ((k' ++ "}}") ++ current (ws1 ++ ws2))))
            with (marker_text k' ++ current (ws1 ++ ws2)).
          now apply starts_other_marker. }
      rewrite split_at_first_step.
      2:{ destruct k' as [|a k'']; [contradiction |].
          cbn [Str.all] in Hopen. apply andb_true_iff in Hopen as [Ha0 _].
          cbn [append]. unfold marker_text. cbn [append].
          now apply starts_second_char. }
      change (marker_text k) with (String "{" (String "{" (k ++ "}}"))) in *.
      rewrite MatchFacts.split_at_first_miss
        by (rewrite StrFacts.all_app, Hopen; reflexivity).
      rewrite (IH ws2) by assumption.
      destruct (JS.split_at_first (String "{" (String "{" (k ++ "}}"))) (current ws2))
        as [[x y]|]; [| reflexivity].
      f_equal. f_equal. unfold marker_text. cbn [append].
      now rewrite !StrFacts.app_assoc.
    + cbn [app wvalid] in Hv. destruct Hv as (_ & _ & Hi & Hv).
      apply inert_inv in Hi as (a & v' & Ev & _ & _ & Hopen & _).
      change (marker_text k) with (String "{" (String "{" (k ++ "}}"))) in *.
      rewrite MatchFacts.split_at_first_miss by assumption.
      rewrite (IH ws2) by assumption.
      destruct (JS.split_at_first (String "{" (String "{" (k ++ "}}"))) (current ws2))
        as [[x y]|]; [| reflexivity].
      now rewrite StrFacts.app_assoc.
Qed.

Lemma value_of_some (markers : registry) (k v : string) :
  value_of markers k = Some v <-> resolution markers (match_of k) = Some (Returned v).
Proof.
  unfold value_of. destruct (resolution markers (match_of k)) as [[v'|m|]|];
    split; intros H; try discriminate H; now injection H as ->.
Qed.

Section Settled.
Variable markers : registry.
Variable xs : list piece.
Hypothesis Hvalid : valid xs.
Hypothesis Hsettled : forall k, In (Mark k) xs -> settled markers (match_of k) = true.

Lemma settled_inert (k v : string) :
  In (Mark k) xs -> value_of markers k = Some v -> inert v = true.
Proof.
  intros Hin Hv. apply value_of_some in Hv. specialize (Hsettled k Hin).
  unfold settled in Hsettled. now rewrite Hv in Hsettled.
Qed.

Lemma settled_apart (k k' v : string) :
  In (Mark k') xs -> value_of markers k = Some v -> value_of markers k' = None ->
  k' <> k /\ Str.all (is_not "{") k' = true.
Proof.
  intros Hin Hv Hn. split; [intros ->; congruence |].
  specialize (Hsettled k' Hin). unfold settled in Hsettled. unfold value_of in Hn.
  destruct (resolution markers (match_of k')) as [[v'|m|]|];
    try discriminate; exact Hsettled.
Qed.
End Settled.

(** When the turn of a marker comes, the first occurrence of its text in
    the working text is its own. *)
Lemma first_occurrence_own (markers : registry) (done rest : list piece) (k v : string) :
  valid (done ++ Mark k :: rest) ->
  (forall k', In (Mark k') (done ++ Mark k :: rest) ->
              settled markers (match_of k') = true) ->
  value_of markers k = Some v ->
  JS.split_at_first (marker_text k) (settle markers done ++ marker_text k ++ source rest) =
  Some (settle markers done, source rest).
Proof.
  intros Hv Hs Hk.
  destruct (valid_In _ k Hv) as [Hne Hb]; [apply in_or_app; right; now left |].
  pose proof (first_occurrence_after k Hne Hb
                (map (work_with (value_of markers)) done)
                (map (work_with (fun _ => None)) (Mark k :: rest))) as H.
  rewrite current_app, current_settle, current_kept in H. cbn [source] in H.
  rewrite H.
  - rewrite MatchFacts.split_at_first_hit. now rewrite StrFacts.app_nil_r.
  - apply wvalid_work; [exact Hv | | discriminate].
    intros k' v' Hin. apply (settled_inert markers _ Hs).
    apply in_or_app. now left.
  - apply Forall_forall. intros w Hw. apply in_map_iff in Hw as (x & <- & Hx).
    destruct x as [c|k']; cbn [work_with]; [exact I |].
    destruct (value_of markers k') as [v'|] eqn:E; [exact I |].
    cbn [apart]. apply (settled_apart markers _ Hs k k' v); try assumption.
    apply in_or_app. now left.
Qed.

(** The loop of the built-in pass when every turn is its own: each match
    is dealt with where it stands. *)
Lemma loop_own (markers : registry) :
  forall (ys : list piece) (done : string) (log : list diagnostic),
    own_turns markers done ys ->
    marker_loop markers (marks ys) (done ++ source ys, log) =
    ((done ++ settle markers ys,
      (log ++ diagnostics_of markers (marks ys))%list), None).
Proof.
  induction ys as [|[c|k] ys IH]; intros done log H.
  - cbn. now rewrite List.app_nil_r.
  - cbn [own_turns] in H. specialize (IH _ log H).
    rewrite !StrFacts.app_assoc in IH. cbn [append] in IH.
    cbn [marks flat_map app source settle]. exact IH.
  - cbn [own_turns] in H.
    cbn [marks flat_map app source settle marker_loop]. fold (marks ys).
    rewrite marker_step_resolution.
    unfold diagnostics_of. cbn [flat_map]. fold (diagnostics_of markers (marks ys)).
    unfold value_of.
    destruct (resolution markers (match_of k)) as [[v|message|]|] eqn:Er.
    + destruct H as (Hsplit & Hd & H). cbn [fst match_of]. unfold JS.replace_string.
      rewrite Hsplit, MatchFacts.getSubstitution_plain by assumption.
      specialize (IH _ log H). rewrite !StrFacts.app_assoc in IH. exact IH.
    + cbn [fst match_of]. specialize (IH _ (log ++ [(marker_text k, message)])%list H).
      rewrite !StrFacts.app_assoc in IH. rewrite IH.
      now rewrite <- List.app_assoc.
    + contradiction.
    + specialize (IH _ log H). rewrite !StrFacts.app_assoc in IH. exact IH.
Qed.

(** On settled matches every turn is its own. *)
Lemma settled_own_turns (markers : registry) :
  forall (ys xs : list piece),
    valid (xs ++ ys) ->
    (forall k, In (Mark k) (xs ++ ys) -> settled markers (match_of k) = true) ->
    own_turns markers (settle markers xs) ys.
Proof.
  induction ys as [|[c|k] ys IH]; intros xs Hv Hs.
  - exact I.
  - cbn [own_turns]. specialize (IH (xs ++ [Lone c])%list).
    rewrite <- List.app_assoc in IH. cbn [app] in IH.
    rewrite settle_app in IH. cbn [settle] in IH. now apply IH.
  - assert (Hk : settled markers (match_of k) = true)
      by (apply Hs, in_or_app; right; now left).
    pose proof (IH (xs ++ [Mark k])%list) as IH'.
    rewrite <- List.app_assoc in IH'. cbn [app] in IH'.
    rewrite settle_app in IH'. cbn [settle] in IH'. unfold value_of in IH'.
    rewrite StrFacts.app_nil_r in IH'.
    cbn [own_turns]. unfold settled in Hk.
    destruct (resolution markers (match_of k)) as [[v|message|]|] eqn:Er.
    + apply inert_inv in Hk as (a & v' & _ & _ & _ & _ & Hd).
      repeat split; [| exact Hd | now apply IH'].
      apply (first_occurrence_own markers xs ys k v Hv Hs). now apply value_of_some.
    + now apply IH'.
    + discriminate Hk.
    + now apply IH'.
Qed.

Lemma split_at_first_none_occurs (pat s : string) :
  JS.split_at_first pat s = None -> occurs pat s = false.
Proof.
  induction s as [|c t IH]; cbn [JS.split_at_first occurs].
  - destruct (Str.starts pat ""); [discriminate | reflexivity].
  - destruct (Str.starts pat (String c t)); [discriminate |].
    destruct (JS.split_at_first pat t) as [[a b]|]; [discriminate |].
    intros _. now rewrite IH.
Qed.

(** A marker text that has been replaced occurs nowhere in the result. *)
Lemma no_occurrence_left (markers : registry) (xs : list piece) (k v : string) :
  valid xs ->
  (forall k', In (Mark k') xs -> settled markers (match_of k') = true) ->
  In (Mark k) xs ->
  value_of markers k = Some v ->
  occurs (marker_text k) (settle markers xs) = false.
Proof.
  intros Hv Hs Hin Hk. destruct (valid_In _ k Hv Hin) as [Hne Hb].
  apply split_at_first_none_occurs.
  pose proof (first_occurrence_after k Hne Hb
                (map (work_with (value_of markers)) xs) []) as H.
  rewrite List.app_nil_r, current_settle in H. rewrite H; [reflexivity | |].
  - apply wvalid_map; [exact Hv |]. intros k' v'. apply (settled_inert markers _ Hs).
  - apply Forall_forall. intros w Hw. apply in_map_iff in Hw as (x & <- & Hx).
    destruct x as [c|k']; cbn [work_with]; [exact I |].
    destruct (value_of markers k') as [v'|] eqn:E; [exact I |].
    cbn [apart]. now apply (settled_apart markers _ Hs k k' v).
Qed.

Lemma occurs_app_r (pat a s : string) : occurs pat s = true -> occurs pat (a ++ s) = true.
Proof.
  intros H. induction a as [|c a IH]; [exact H |].
  cbn [append occurs]. rewrite IH. apply orb_true_r.
Qed.

Lemma occurs_app_l (pat s : string) : occurs pat (pat ++ s) = true.
Proof.
  destruct pat as [|c pat]; [destruct s; reflexivity |].
  cbn [append occurs]. change (String c (pat ++ s)) with (String c pat ++ s).
  now rewrite StrFacts.starts_app.
Qed.


Lemma marks_In (xs : list piece) (mt : string * list (option string)) :
  In mt (marks xs) -> exists k, mt = match_of k /\ In (Mark k) xs.
Proof.
  unfold marks. intros H. apply in_flat_map in H as ([c|k] & Hx & Hm); [contradiction |].
  destruct Hm as [<- | []]. now exists k.
Qed.

Lemma In_marks (xs : list piece) (k : string) : In (Mark k) xs -> In (match_of k) (marks xs).
Proof.
  intros H. unfold marks. apply in_flat_map. exists (Mark k). split; [exact H | now left].
Qed.

(** The pieces of a text, against the text and its matches. *)
Lemma pieces_of_text (text : string) :
  valid (pieces text) /\ source (pieces text) = text /\
  marks (pieces text) = JS.matchAll text markerPattern.
Proof. exact (pieces_loop_spec text 0 0). Qed.

(** The built-in pass on a text where every turn is its own. *)
Lemma builtin_pass_own (markers : registry) (text : string) :
  own_turns markers "" (pieces text) ->
  replaceBuiltInMarkers markers text =
  Ok (replaced_in_place markers text,
      diagnostics_of markers (JS.matchAll text markerPattern)).
Proof.
  intros H. destruct (pieces_of_text text) as (Hv & Hs & Hm).
  unfold replaceBuiltInMarkers, replaceBuiltInMarkers_trace, replaced_in_place.
  rewrite <- Hm.
  pose proof (loop_own markers (pieces text) "" [] H) as L.
  cbn [append app] in L. rewrite Hs in L. now rewrite L.
Qed.

Lemma settled_pieces (markers : registry) (text : string) :
  forallb (settled markers) (JS.matchAll text markerPattern) = true ->
  forall k, In (Mark k) (pieces text) -> settled markers (match_of k) = true.
Proof.
  intros H k Hin. destruct (pieces_of_text text) as (_ & _ & Hm).
  rewrite forallb_forall in H. apply H. rewrite <- Hm. now apply In_marks.
Qed.

(** On a text whose matches are settled every turn is its own. *)
Lemma settled_text_own (markers : registry) (text : string) :
  forallb (settled markers) (JS.matchAll text markerPattern) = true ->
  own_turns markers "" (pieces text).
Proof.
  intros H. destruct (pieces_of_text text) as (Hv & _ & _).
  apply (settled_own_turns markers (pieces text) []); [exact Hv |].
  now apply settled_pieces.
Qed.

(** The built-in pass on a text whose matches are settled. *)
Lemma builtin_pass_in_place (markers : registry) (text : string) :
  forallb (settled markers) (JS.matchAll text markerPattern) = true ->
  replaceBuiltInMarkers markers text =
  Ok (replaced_in_place markers text,
      diagnostics_of markers (JS.matchAll text markerPattern)).
Proof. intros H. now apply builtin_pass_own, settled_text_own. Qed.

(** On settled matches the marker text of a replaced match is nowhere in
    the result. *)
Lemma settled_none_left (markers : registry) (text : string)
    (mt : string * list (option string)) (v : string) :
  forallb (settled markers) (JS.matchAll text markerPattern) = true ->
  In mt (JS.matchAll text markerPattern) ->
  resolution markers mt = Some (Returned v) ->
  occurs (fst mt) (replaced_in_place markers text) = false.
Proof.
  intros Hs Hin Hres. destruct (pieces_of_text text) as (Hv & _ & Hm).
  rewrite <- Hm in Hin. apply marks_In in Hin as (k & -> & Hin). cbn [fst match_of].
  apply (no_occurrence_left markers (pieces text) k v); try assumption.
  - now apply settled_pieces.
  - now apply value_of_some.
Qed.


(** On a text whose only opening braces are those of the occurrences of
    one marker text, replacing in place is replacing every occurrence. *)
Lemma in_place_is_replace_all (markers : registry) (c : string)
    (f : markerFn) (v t0 : string) (segs : list string) :
  c <> "" ->
  Str.all (is_not "}") c = true ->
  lookup markers (fst (parse_marker c)) = Some f ->
  f (snd (parse_marker c)) = Returned v ->
  inert v = true ->
  Str.all (is_not "{") t0 = true ->
  forallb (Str.all (is_not "{")) segs = true ->
  replaced_in_place markers (interleave (marker_text c) t0 segs) =
  replace_every (interleave (marker_text c) t0 segs) (marker_text c) v.
Proof.
  intros Hne Hc Hl Hf Hi Ht0 Hsegs.
  pose proof (inert_inv v Hi) as (a & v' & _ & _ & _ & Hv1 & Hv2).
  pose proof (builtin_pass_on_interleave markers c f v t0 segs
                Hne Hc Hl Hf Hv1 Hv2 Ht0 Hsegs) as H1.
  rewrite builtin_pass_in_place in H1.
  - injection H1 as -> _. symmetry. now apply replace_every_interleave.
  - unfold JS.matchAll. rewrite MatchFacts.matchAll_interleave by assumption.
    apply forallb_forall. intros mt Hin. apply repeat_spec in Hin. subst mt.
    unfold settled, resolution. cbn [snd JS.capture_text Nat.pred nth_error].
    destruct (parse_marker c) as [name params]. cbn [fst snd] in Hl, Hf.
    now rewrite Hl, Hf.
Qed.




(** *** A marker that raises *)




Lemma marker_loop_log (markers : registry)
    (ms : list (string * list (option string))) :
  forall result log result' log',
    marker_loop markers ms (result, log) = ((result', log'), None) ->
    log' = (log ++ diagnostics_of markers ms)%list.
Proof.
  induction ms as [|mt ms IH]; intros result log result' log' H.
  - cbn in H. injection H as _ <-. cbn. now rewrite List.app_nil_r.
  - cbn [marker_loop] in H. rewrite marker_step_resolution in H.
    unfold diagnostics_of. cbn [flat_map]. fold (diagnostics_of markers ms).
    destruct (resolution markers mt) as [[v | message |] |].
    + now apply IH in H.
    + apply IH in H. now rewrite <- List.app_assoc in H.
    + discriminate H.
    + now apply IH in H.
Qed.

(** A loop none of whose markers throws [null] or [undefined] runs to its
    end. *)
Lemma marker_loop_runs (markers : registry)
    (ms : list (string * list (option string))) :
  (forall mt, In mt ms -> resolution markers mt <> Some ThrownNullish) ->
  forall st, snd (marker_loop markers ms st) = None.
Proof.
  induction ms as [|mt ms IH]; intros H [result log]; [reflexivity |].
  cbn [marker_loop]. rewrite marker_step_resolution.
  pose proof (H mt (or_introl eq_refl)) as Hmt.
  destruct (resolution markers mt) as [[v | message |] |];
    try (apply IH; intros; apply H; now right).
  now elim Hmt.
Qed.




(** *** Values that carry marker text *)

Lemma custom_step_literal (key : string) (value : scalar) (text : string) :
  plain_key key = true ->
  Str.all (is_not "$") (String_ value) = true ->
  custom_step text (key, value) =
  Ok (replace_every text (marker_text key) (String_ value)).
Proof.
  intros Hk Hv. unfold custom_step.
  change ("{{" ++ key ++ "}}") with (marker_text key).
  rewrite ParseFacts.compile_plain_key by assumption.
  cbn [bind]. now rewrite MatchFacts.replace_regexp_lit.
Qed.

(** For plain keys and values without ['$'] the custom-data pass is the
    chain of literal replacements. *)
Lemma custom_pass_literal (data : customData) :
  forallb (fun e => plain_key (fst e) && Str.all (is_not "$") (String_ (snd e))) data = true ->
  forall text, replaceCustomData text data = Ok (literal_pass text data).
Proof.
  unfold literal_pass.
  induction data as [|[key value] data IH]; intros H text; [reflexivity |].
  simpl in H. apply andb_true_iff in H as [Hkv Hd].
  apply andb_true_iff in Hkv as [Hk Hv].
  cbn [replaceCustomData fold_left fst snd].
  rewrite custom_step_literal by assumption. cbn [bind]. now apply IH.
Qed.

Lemma literal_pass_app (text : string) (d1 d2 : customData) :
  literal_pass text (d1 ++ d2)%list = literal_pass (literal_pass text d1) d2.
Proof. unfold literal_pass. apply fold_left_app. Qed.

Lemma occurs_inv (pat s : string) :
  occurs pat s = true -> exists pre post, s = pre ++ pat ++ post.
Proof.
  induction s as [|c t IH]; cbn [occurs]; intros H.
  - rewrite orb_false_r in H. apply StrFacts.starts_true in H.
    now exists "", (Str.drop (String.length pat) "").
  - apply orb_true_iff in H as [H | H].
    + apply StrFacts.starts_true in H.
      now exists "", (Str.drop (String.length pat) (String c t)).
    + destruct (IH H) as (pre & post & ->). now exists (String c pre), post.
Qed.

Lemma occurs_trans (a b c : string) :
  occurs a b = true -> occurs b c = true -> occurs a c = true.
Proof.
  intros Hab Hbc.
  apply occurs_inv in Hab as (p1 & p2 & ->). apply occurs_inv in Hbc as (q1 & q2 & ->).
  rewrite !StrFacts.app_assoc. do 2 apply occurs_app_r. apply occurs_app_l.
Qed.

(** Where the pattern occurs, [replace_every] puts the value. *)
Lemma occurs_replace_every (pat v s : string) :
  pat <> "" -> occurs pat s = true -> occurs v (replace_every s pat v) = true.
Proof.
  intros Hne. unfold replace_every. induction s as [|c t IH]; intros H.
  - destruct pat; [contradiction | discriminate H].
  - cbn [replace_every_loop]. cbn [occurs] in H.
    destruct (Str.starts pat (String c t)).
    + destruct (String.length pat); apply occurs_app_l.
    + cbn [orb] in H. cbn [occurs]. rewrite (IH H). apply orb_true_r.
Qed.

Lemma marker_text_nonempty (k : string) : marker_text k <> "".
Proof. discriminate. Qed.

(** C10 (counterexample): the value of [a] holds only the marker of the
    custom key [b], which comes later in the data; the turn of the loop for
    [b] expands it.  And a registered marker inside a value is not expanded
    when the text around [{{k}}] makes the scan read it as part of a longer,
    unknown marker. *)
Lemma later_custom_key_is_expanded :
  (process Samples.builtins "{{a}}" [("a", SString "{{b}}"); ("b", SString "X")] =
     Ok ("X", []) /\
   "X" <> "{{b}}") /\
  (process Samples.constant "{{x {{k}}" [("k", SString "{{m}}")] = Ok ("{{x {{m}}", []) /\
   occurs "{{m}}" "{{x {{m}}" = true).
Proof. repeat split; (reflexivity || discriminate). Qed.

(** C10 (amended): with plain keys and values without ['$'], the built-in
    pass scans the text the custom-data pass leaves, which is the chain of
    the literal replacements in the order of the data; when every turn of
    the built-in loop on that text is its own, every registered marker in
    it whose function returns a value, those brought in by custom values
    included, is replaced where it stands; that is so when the matches of
    that text are settled, and then the text of a replaced marker occurs
    nowhere in the returned string.  A marker [{{j}}] inside the value of
    a key [k] whose marker occurs in the working text is in the text after
    the turn of [k].  When the entry of [j] comes later in the data, its
    turn replaces every [{{j}}] the working text then holds; when it came
    earlier and the entry of [k] is the last one, the [{{j}}] of the value
    stays in the text the custom-data pass returns. *)
Theorem custom_value_is_rescanned (markers : registry) (text : string)
    (data d d2 : customData) (k j : string) (vk vj : scalar) :
  forallb (fun e => plain_key (fst e) && Str.all (is_not "$") (String_ (snd e))) data = true ->
  forallb (fun e => plain_key (fst e) && Str.all (is_not "$") (String_ (snd e)))
    (d ++ (k, vk) :: d2 ++ [(j, vj)])%list = true ->
  occurs (marker_text j) (String_ vk) = true ->
  process markers text data = replaceBuiltInMarkers markers (literal_pass text data) /\
  (own_turns markers "" (pieces (literal_pass text data)) ->
   process markers text data =
     Ok (replaced_in_place markers (literal_pass text data),
         diagnostics_of markers (JS.matchAll (literal_pass text data) markerPattern))) /\
  (forallb (settled markers) (JS.matchAll (literal_pass text data) markerPattern) = true ->
   own_turns markers "" (pieces (literal_pass text data)) /\
   forall mt v,
     In mt (JS.matchAll (literal_pass text data) markerPattern) ->
     resolution markers mt = Some (Returned v) ->
     occurs (fst mt) (replaced_in_place markers (literal_pass text data)) = false) /\
  (occurs (marker_text k) (literal_pass text d) = true ->
   occurs (marker_text j) (literal_pass text (d ++ [(k, vk)])%list) = true) /\
  (replaceCustomData text (d ++ (k, vk) :: d2 ++ [(j, vj)])%list =
     Ok (replace_every (literal_pass text (d ++ (k, vk) :: d2)%list)
           (marker_text j) (String_ vj)) /\
   (occurs (marker_text j) (literal_pass text (d ++ (k, vk) :: d2)%list) = true ->
    occurs (String_ vj)
      (replace_every (literal_pass text (d ++ (k, vk) :: d2)%list)
         (marker_text j) (String_ vj)) = true)) /\
  (replaceCustomData text (d ++ (j, vj) :: d2 ++ [(k, vk)])%list =
     Ok (replace_every (literal_pass text (d ++ (j, vj) :: d2)%list)
           (marker_text k) (String_ vk)) /\
   (occurs (marker_text k) (literal_pass text (d ++ (j, vj) :: d2)%list) = true ->
    occurs (marker_text j)
      (replace_every (literal_pass text (d ++ (j, vj) :: d2)%list)
         (marker_text k) (String_ vk)) = true)).
Proof.
  intros Hdata Hd Hj.
  assert (Hp : process markers text data =
               replaceBuiltInMarkers markers (literal_pass text data))
    by (unfold process; now rewrite custom_pass_literal).
  assert (Hturn : forall (a : customData) (x : string) (vx : scalar),
            literal_pass text (a ++ [(x, vx)])%list =
            replace_every (literal_pass text a) (marker_text x) (String_ vx))
    by (intros a x vx; now rewrite literal_pass_app).
  split; [exact Hp | split; [| split; [| split; [| split]]]].
  - intros Hown. rewrite Hp. now apply builtin_pass_own.
  - intros Hs. split; [now apply settled_text_own |].
    intros mt v. now apply settled_none_left.
  - intros Hk. rewrite Hturn.
    apply (occurs_trans _ (String_ vk)); [exact Hj |].
    apply occurs_replace_every; [apply marker_text_nonempty | exact Hk].
  - split.
    + rewrite custom_pass_literal by exact Hd. f_equal.
      change (d ++ (k, vk) :: d2 ++ [(j, vj)])%list
        with (d ++ ((k, vk) :: d2) ++ [(j, vj)])%list.
      rewrite List.app_assoc. apply Hturn.
    + intros H. apply occurs_replace_every; [apply marker_text_nonempty | exact H].
  - split.
    + rewrite custom_pass_literal.
      * f_equal.
        change (d ++ (j, vj) :: d2 ++ [(k, vk)])%list
          with (d ++ ((j, vj) :: d2) ++ [(k, vk)])%list.
        rewrite List.app_assoc. apply Hturn.
      * rewrite forallb_app in Hd |- *. cbn [forallb] in Hd |- *.
        rewrite forallb_app in Hd |- *. cbn [forallb] in Hd |- *.
        apply andb_true_iff in Hd as [H0 H12].
        apply andb_true_iff in H12 as [H1 H2]. apply andb_true_iff in H2 as [H2 H3].
        apply andb_true_iff in H3 as [H3 _].
        now rewrite H0, H1, H2, H3.
    + intros H. apply (occurs_trans _ (String_ vk)); [exact Hj |].
      apply occurs_replace_every; [apply marker_text_nonempty | exact H].
Qed.

Lemma custom_value_is_rescanned_witness :
  process Samples.constant "{{k}} {{k}} {{j}}"
    [("k", SString "<{{m}}>"); ("j", SString "J")] = Ok ("<A> <A> J", []) /\
  replaceCustomData "Hi {{sig}}, {{sig}}{{dot}}"
    [("sig", SString "by {{name}}!"); ("dot", SString "."); ("name", SString "Bob")] =
    Ok "Hi by Bob!, by Bob!." /\
  replaceCustomData "Hi {{sig}}, {{sig}}{{dot}}"
    [("name", SString "Bob"); ("dot", SString "."); ("sig", SString "by {{name}}!")] =
    Ok "Hi by {{name}}!, by {{name}}!.".
Proof.
  destruct (custom_value_is_rescanned Samples.constant "{{k}} {{k}} {{j}}"
              [("k", SString "<{{m}}>"); ("j", SString "J")] [] []
              "sig" "name" (SString "by {{name}}!") (SString "Bob"))
    as (_ & H1 & Hs & _); [reflexivity | reflexivity | reflexivity |].
  destruct (custom_value_is_rescanned Samples.constant "Hi {{sig}}, {{sig}}{{dot}}"
              [] [] [("dot", SString ".")]
              "sig" "name" (SString "by {{name}}!") (SString "Bob"))
    as (_ & _ & _ & _ & [H2 _] & [H3 _]); [reflexivity | reflexivity | reflexivity |].
  destruct Hs as [Hown _]; [vm_compute; reflexivity |].
  specialize (H1 Hown).
  vm_compute in H1, H2, H3. repeat split; assumption.
Defined.

(** ** Further properties of the scan *)

Import Ref2.


(** X1: every match of the scan is a piece of the text of the form
    [{{content}}], with a content that is not empty and holds no ['}'], and
    its group is that content. *)
Theorem scan_matches_well_formed (text : string)
    (mt : string * list (option string)) :
  In mt (JS.matchAll text markerPattern) ->
  exists content pre post,
    mt = (marker_text content, [Some content]) /\
    text = pre ++ marker_text content ++ post /\
    content <> "" /\
    Str.all (is_not "}") content = true.
Proof.
  intros Hin. unfold JS.matchAll in Hin.
  apply matchAll_loop_In in Hin as (pre & rest' & p' & len & captures & Ht & He & Hm).
  apply exec_at_marker_inv in He as (c & tail & Hr & Hne & Hc & Hlen & Hcaps).
  exists c, pre, tail. subst. repeat split; try assumption.
  rewrite <- MatchFacts.marker_text_length. now rewrite StrFacts.take_app.
Qed.

Lemma scan_matches_well_formed_witness :
  exists content pre post,
    ("{{add:1,2}}", [Some "add:1,2"]) = (marker_text content, [Some content]) /\
    "a {{add:1,2}} b {{x}}" = pre ++ marker_text content ++ post /\
    content <> "" /\
    Str.all (is_not "}") content = true.
Proof.
  apply (scan_matches_well_formed "a {{add:1,2}} b {{x}}"
           ("{{add:1,2}}", [Some "add:1,2"])).
  left. reflexivity.
Defined.

(** *** Text without an opening pair of braces *)

Lemma occurs_cons (pat : string) (c : ascii) (t : string) :
  occurs pat (String c t) = false ->
  Str.starts pat (String c t) = false /\ occurs pat t = false.
Proof. cbn [occurs]. intros H. now apply orb_false_iff in H. Qed.

Lemma occurs_starts (pat s : string) :
  occurs pat s = false -> Str.starts pat s = false.
Proof.
  destruct s as [|c t]; cbn [occurs]; intros H; now apply orb_false_iff in H.
Qed.

Lemma starts_marker_open (key rest : string) :
  Str.starts "{{" rest = false -> Str.starts (marker_text key) rest = false.
Proof.
  unfold marker_text. cbn [append].
  destruct rest as [|x1 [|x2 r]]; cbn [Str.starts]; intros H;
    try reflexivity.
  - now rewrite andb_false_r.
  - rewrite andb_true_r in H. rewrite andb_assoc, H. reflexivity.
Qed.

Lemma replace_loop_no_open (key v whole : string) :
  forall (r : string) (p skip : nat),
    occurs "{{" r = false ->
    JS.replace_loop (MkRegExp (lit (marker_text key)) 0) v whole p r skip =
    Str.drop skip r.
Proof.
  induction r as [|c t IH]; intros p skip H.
  - destruct skip; reflexivity.
  - apply occurs_cons in H as [Hs Ho].
    destruct skip as [|skip]; cbn [JS.replace_loop Str.drop].
    + rewrite MatchFacts.exec_at_lit, (starts_marker_open key _ Hs).
      rewrite IH by assumption. reflexivity.
    + now apply IH.
Qed.

Lemma matchAll_no_open :
  forall (r : string) (p skip : nat),
    occurs "{{" r = false -> JS.matchAll_loop markerPattern p r skip = [].
Proof.
  induction r as [|c t IH]; intros p skip H.
  - destruct skip; reflexivity.
  - apply occurs_cons in H as [Hs Ho].
    destruct skip as [|skip]; cbn [JS.matchAll_loop].
    + rewrite exec_at_marker_short by assumption. now apply IH.
    + now apply IH.
Qed.

Lemma replaceCustomData_no_open (text : string) (data : customData) :
  forallb (fun e => plain_key (fst e)) data = true ->
  occurs "{{" text = false ->
  replaceCustomData text data = Ok text.
Proof.
  intros Hkeys Htext.
  induction data as [|[key value] data IH]; [reflexivity |].
  simpl in Hkeys. apply andb_true_iff in Hkeys as [Hk Hd].
  cbn [replaceCustomData custom_step].
  change ("{{" ++ key ++ "}}") with (marker_text key).
  rewrite ParseFacts.compile_plain_key by assumption. cbn [bind].
  unfold JS.replace_regexp. rewrite replace_loop_no_open by assumption.
  cbn [Str.drop]. now apply IH.
Qed.

Lemma replaceBuiltInMarkers_no_open (markers : registry) (text : string) :
  occurs "{{" text = false -> replaceBuiltInMarkers markers text = Ok (text, []).
Proof.
  intros H. unfold replaceBuiltInMarkers, replaceBuiltInMarkers_trace, JS.matchAll.
  now rewrite matchAll_no_open.
Qed.

(** X2: on a text in which [{{] does not occur, [process] is the identity,
    for every registry and for custom data with plain keys, whatever the
    values; nothing is logged. *)
Theorem process_identity_without_markers (markers : registry) (text : string)
    (data : customData) :
  forallb (fun e => plain_key (fst e)) data = true ->
  occurs "{{" text = false ->
  process markers text data = Ok (text, []).
Proof.
  intros Hkeys Htext. unfold process.
  rewrite replaceCustomData_no_open by assumption.
  cbn [bind]. now rewrite replaceBuiltInMarkers_no_open.
Qed.

Lemma process_identity_without_markers_witness :
  process Samples.builtins "a { b } c {x}" [("x", SString "$&"); ("b", SNumber "1")] =
  Ok ("a { b } c {x}", []).
Proof.
  apply (process_identity_without_markers Samples.builtins "a { b } c {x}"
           [("x", SString "$&"); ("b", SNumber "1")]); reflexivity.
Defined.

(** ** Further properties of the registry *)

Lemma lookup_register_same (markers : registry) (name : string) (f : markerFn) :
  lookup (registerMarker name f markers) name = Some f.
Proof. unfold lookup, registerMarker. now rewrite String.eqb_refl. Qed.

Lemma lookup_register_other (markers : registry) (name n : string) (f : markerFn) :
  n <> name -> lookup (registerMarker name f markers) n = lookup markers n.
Proof.
  intros H. unfold lookup, registerMarker.
  destruct (String.eqb_spec n name); [contradiction | reflexivity].
Qed.

Lemma marker_step_lookup (m1 m2 : registry) (st : string * list diagnostic)
    (mt : string * list (option string)) :
  lookup m1 (name_of mt) = lookup m2 (name_of mt) ->
  marker_step m1 st mt = marker_step m2 st mt.
Proof.
  unfold name_of, marker_step. destruct st as [result log].
  destruct (parse_marker (JS.capture_text (snd mt) 1)) as [name params].
  cbn [fst]. now intros ->.
Qed.

Lemma marker_loop_lookup (m1 m2 : registry)
    (ms : list (string * list (option string))) :
  (forall mt, In mt ms -> lookup m1 (name_of mt) = lookup m2 (name_of mt)) ->
  forall st, marker_loop m1 ms st = marker_loop m2 ms st.
Proof.
  induction ms as [|mt ms IH]; intros H st; [reflexivity |].
  cbn [marker_loop]. rewrite (marker_step_lookup m1 m2 st mt (H mt (or_introl eq_refl))).
  destruct (marker_step m2 st mt) as [st' [message|]]; [reflexivity |].
  apply IH. intros y Hy. apply H. now right.
Qed.

(** Registries that resolve the names of a text alike give the same result. *)
Lemma replaceBuiltInMarkers_lookup (m1 m2 : registry) (text : string) :
  (forall mt, In mt (JS.matchAll text markerPattern) ->
              lookup m1 (name_of mt) = lookup m2 (name_of mt)) ->
  replaceBuiltInMarkers m1 text = replaceBuiltInMarkers m2 text.
Proof.
  intros H. unfold replaceBuiltInMarkers, replaceBuiltInMarkers_trace.
  now rewrite (marker_loop_lookup m1 m2).
Qed.

(** X3: after [registerMarker(name, f)], for a name that can stand in a
    marker (not empty, trimmed, without [':'] and ['}']) and [f] returning
    [v] without parameters, [process] turns [{{name}}] into [v], provided [v]
    holds no ['$'].  This holds whatever was registered under the name
    before, built-in markers included, and [v] is not scanned again: markers
    it holds stay as they are. *)
Theorem registered_marker_resolves (markers : registry) (name : string)
    (f : markerFn) (v : string) :
  name <> "__proto__" ->
  name <> "" ->
  JS.trim name = name ->
  Str.all (is_not ":") name = true ->
  Str.all (is_not "}") name = true ->
  f [] = Returned v ->
  Str.all (is_not "$") v = true ->
  process (registerMarker name f markers) (marker_text name) [] = Ok (v, []).
Proof.
  intros _ Hne Htrim Hcolon Hbrace Hf Hv.
  unfold process, replaceBuiltInMarkers, replaceBuiltInMarkers_trace.
  cbn [replaceCustomData bind].
  rewrite matchAll_single by assumption. cbn [marker_loop].
  assert (Hp : parse_marker name = (name, []))
    by (rewrite LoopFacts.parse_marker_no_colon by assumption; now rewrite Htrim).
  rewrite (LoopFacts.marker_step_returned _ _ _ _ _ f v).
  - cbn [leave]. now rewrite replace_string_whole.
  - rewrite Hp. apply lookup_register_same.
  - now rewrite Hp.
Qed.

Lemma registered_marker_resolves_witness :
  process (registerMarker "upper" (fun _ => Returned "{{upper}}") Samples.builtins)
    "{{upper}}" [] = Ok ("{{upper}}", []).
Proof.
  apply (registered_marker_resolves Samples.builtins "upper"
           (fun _ => Returned "{{upper}}") "{{upper}}"); try reflexivity; discriminate.
Defined.

(** X4: registering a marker changes nothing for a text none of whose
    markers has that name. *)
Theorem registration_leaves_other_markers (markers : registry) (name : string)
    (f : markerFn) (text : string) (data : customData) :
  name <> "__proto__" ->
  (forall r mt, replaceCustomData text data = Ok r ->
                In mt (JS.matchAll r markerPattern) -> name_of mt <> name) ->
  process (registerMarker name f markers) text data = process markers text data.
Proof.
  intros _ H. unfold process.
  destruct (replaceCustomData text data) as [r | msg | | msg] eqn:E; try reflexivity.
  cbn [bind]. apply replaceBuiltInMarkers_lookup.
  intros mt Hin. apply lookup_register_other. now apply (H r).
Qed.

Lemma registration_leaves_other_markers_witness :
  process (registerMarker "double" (fun _ => Returned "10") Samples.builtins)
    "{{upper:a}} {{who}}" [("who", SString "{{lower:B}}")] =
  process Samples.builtins "{{upper:a}} {{who}}" [("who", SString "{{lower:B}}")].
Proof.
  apply (registration_leaves_other_markers Samples.builtins "double"
           (fun _ => Returned "10") "{{upper:a}} {{who}}" [("who", SString "{{lower:B}}")]).
  - discriminate.
  - intros r mt Hr Hin. vm_compute in Hr. injection Hr as <-.
    vm_compute in Hin. destruct Hin as [<- | [<- | []]]; vm_compute; discriminate.
Defined.

(** X6: a second registration under the same name replaces the first: the
    result of [process] is that of the last function registered alone. *)
Theorem last_registration_wins (markers : registry) (name : string)
    (f g : markerFn) (text : string) (data : customData) :
  name <> "__proto__" ->
  process (registerMarker name g (registerMarker name f markers)) text data =
  process (registerMarker name g markers) text data.
Proof.
  intros _. unfold process.
  destruct (replaceCustomData text data) as [r | msg | | msg]; try reflexivity.
  cbn [bind]. apply replaceBuiltInMarkers_lookup.
  intros mt _. unfold lookup, registerMarker.
  destruct (String.eqb (name_of mt) name); reflexivity.
Qed.

Lemma last_registration_wins_witness :
  process (registerMarker "m" (fun _ => Returned "2")
             (registerMarker "m" (fun _ => Returned "1") Samples.builtins))
    "{{m}} {{upper:x}}" [] =
  process (registerMarker "m" (fun _ => Returned "2") Samples.builtins)
    "{{m}} {{upper:x}}" [].
Proof.
  apply (last_registration_wins Samples.builtins "m"); discriminate.
Defined.

(** *** The characters of a parsed name and of parsed parameters *)

Lemma split_parts_all (p : ascii -> bool) (sep : ascii) (s : string) :
  Str.all p s = true -> Forall (fun x => Str.all p x = true) (JS.split sep s).
Proof.
  induction s as [|c s IH]; intros H.
  - repeat constructor.
  - simpl in H. apply andb_true_iff in H as [Hc Hs]. specialize (IH Hs).
    cbn [JS.split]. destruct (Str.eqc c sep).
    + constructor; [reflexivity | assumption].
    + destruct (JS.split sep s) as [|h r]; [repeat constructor; simpl; now rewrite Hc |].
      inversion IH as [|? ? Hh Hr]; subst.
      constructor; [simpl; now rewrite Hc, Hh | assumption].
Qed.

Lemma split_parts_no_sep (sep : ascii) (s : string) :
  Forall (fun x => Str.all (is_not sep) x = true) (JS.split sep s).
Proof.
  induction s as [|c s IH].
  - repeat constructor.
  - cbn [JS.split]. destruct (Str.eqc c sep) eqn:E.
    + constructor; [reflexivity | assumption].
    + assert (Hc : is_not sep c = true) by (unfold is_not; now rewrite E).
      destruct (JS.split sep s) as [|h r]; [repeat constructor; simpl; now rewrite Hc |].
      inversion IH as [|? ? Hh Hr]; subst.
      constructor; [simpl; now rewrite Hc, Hh | assumption].
Qed.

Lemma Forall_hd (P : string -> Prop) (l : list string) :
  P "" -> Forall P l -> P (hd "" l).
Proof. intros H0 H. destruct H; assumption. Qed.

Lemma parsed_name_characters (content : string) :
  Str.all (is_not "}") content = true ->
  Str.all (is_not ":") (fst (parse_marker content)) = true /\
  Str.all (is_not "}") (fst (parse_marker content)) = true.
Proof.
  intros Hb. unfold parse_marker. cbn [fst].
  pose proof (split_parts_all (is_not "}") ":" content Hb) as Hparts.
  split; apply all_trim.
  - apply (Forall_hd (fun x => Str.all (is_not ":") x = true));
      [reflexivity | apply split_parts_no_sep].
  - now apply (Forall_hd (fun x => Str.all (is_not "}") x = true)).
Qed.

(** X7: the name parsed from a marker content never holds a [':'], no
    parameter holds a [','], and neither holds a ['}'] when the content holds
    none (as is the case for every match of the scan). *)
Theorem parsed_marker_characters (content : string) :
  Str.all (is_not "}") content = true ->
  Str.all (is_not ":") (fst (parse_marker content)) = true /\
  Str.all (is_not "}") (fst (parse_marker content)) = true /\
  Forall (fun p => Str.all (is_not ",") p = true /\ Str.all (is_not "}") p = true)
    (snd (parse_marker content)).
Proof.
  intros Hb. destruct (parsed_name_characters content Hb) as [Hn1 Hn2].
  split; [exact Hn1 | split; [exact Hn2 |]].
  unfold parse_marker. cbn [fst snd].
  pose proof (split_parts_all (is_not "}") ":" content Hb) as Hparts.
  assert (Hjoin : Str.all (is_not "}") (JS.join ":" (tl (JS.split ":" content))) = true).
  { unfold JS.join. destruct Hparts as [|h r _ Hr]; [reflexivity |]. cbn [tl].
    induction Hr as [|x l Hx Hl IH]; [reflexivity |].
    destruct l as [|y l]; [exact Hx |].
    change (Str.concat_sep ":" (x :: y :: l))
      with (x ++ ":" ++ Str.concat_sep ":" (y :: l)).
    rewrite !StrFacts.all_app, Hx, IH. reflexivity. }
  destruct (String.eqb (JS.join ":" (tl (JS.split ":" content))) "");
    [constructor |].
  apply Forall_map.
  pose proof (split_parts_no_sep "," (JS.join ":" (tl (JS.split ":" content)))) as H1.
  pose proof (split_parts_all (is_not "}") "," _ Hjoin) as H2.
  revert H1 H2. generalize (JS.split "," (JS.join ":" (tl (JS.split ":" content)))).
  induction l as [|x l IH]; intros H1 H2; [constructor |].
  inversion H1; inversion H2; subst.
  constructor; [split; now apply all_trim | now apply IH].
Qed.

Lemma parsed_marker_characters_witness :
  Str.all (is_not ":") (fst (parse_marker " at : 10:30 , {x, y ")) = true /\
  Str.all (is_not "}") (fst (parse_marker " at : 10:30 , {x, y ")) = true /\
  Forall (fun p => Str.all (is_not ",") p = true /\ Str.all (is_not "}") p = true)
    (snd (parse_marker " at : 10:30 , {x, y ")).
Proof.
  apply (parsed_marker_characters " at : 10:30 , {x, y "). reflexivity.
Defined.

(** X5: a marker registered under a name that holds a [':'] or a ['}'] is
    never called: for every text and data, [process] returns what it returns
    without the registration. *)
Theorem unreachable_registration (markers : registry) (name : string)
    (f : markerFn) (text : string) (data : customData) :
  Str.all (is_not ":") name = false \/ Str.all (is_not "}") name = false ->
  process (registerMarker name f markers) text data = process markers text data.
Proof.
  intros Hname. unfold process.
  destruct (replaceCustomData text data) as [r | msg | | msg]; try reflexivity.
  cbn [bind]. apply replaceBuiltInMarkers_lookup.
  intros mt Hin. apply lookup_register_other. intros Heq.
  unfold JS.matchAll in Hin.
  apply matchAll_loop_In in Hin as (pre & rest' & p' & len & captures & _ & He & ->).
  apply exec_at_marker_inv in He as (c & tail & _ & _ & Hc & _ & ->).
  destruct (parsed_name_characters c Hc) as [H1 H2].
  unfold name_of in Heq. cbn [snd JS.capture_text Nat.pred nth_error] in Heq.
  rewrite Heq in H1, H2. destruct Hname as [Hn | Hn]; congruence.
Qed.

Lemma unreachable_registration_witness :
  process (registerMarker "time:now" (fun _ => Returned "12:00") Samples.builtins)
    "It is {{time:now}}" [] =
  process Samples.builtins "It is {{time:now}}" [].
Proof.
  apply (unreachable_registration Samples.builtins "time:now"). left. reflexivity.
Defined.

(** ** Further properties of the custom-data pass *)

Lemma replaceCustomData_same_ending (data : customData) :
  forall text text',
    same_ending (replaceCustomData text data) (replaceCustomData text' data).
Proof.
  induction data as [|[key value] data IH]; intros text text'.
  - exact I.
  - cbn [replaceCustomData custom_step].
    destruct (compile ("{{" ++ key ++ "}}")) as [pattern | msg | | msg]; cbn [bind].
    + apply IH.
    + reflexivity.
    + exact I.
    + reflexivity.
Qed.

(** A [SyntaxError] leaves [process] only from the custom-data pass. *)
Lemma process_syntax_error (markers : registry) (text : string) (data : customData)
    (msg : string) :
  process markers text data = SyntaxError msg ->
  replaceCustomData text data = SyntaxError msg.
Proof.
  unfold process.
  destruct (replaceCustomData text data) as [r | m | | m]; cbn [bind]; intros H;
    [| now injection H as -> | discriminate H | discriminate H].
  unfold replaceBuiltInMarkers in H.
  destruct (replaceBuiltInMarkers_trace markers r) as [st [message|]];
    cbn [leave] in H; discriminate H.
Qed.

Lemma replaceCustomData_syntax_error (data : customData) (text text' msg : string) :
  replaceCustomData text data = SyntaxError msg ->
  replaceCustomData text' data = SyntaxError msg.
Proof.
  intros H. pose proof (replaceCustomData_same_ending data text text') as E.
  rewrite H in E. destruct (replaceCustomData text' data); cbn in E;
    try contradiction. now subst.
Qed.

(** X8: whether [process] raises a [SyntaxError] depends on the keys of
    the custom data only: when one call raises it, every call with the same
    data raises the same one, whatever the text and the registry, also for
    a text without any marker. *)
Theorem syntax_error_depends_on_keys_only (markers markers' : registry)
    (text text' : string) (data : customData) (msg : string) :
  process markers text data = SyntaxError msg ->
  process markers' text' data = SyntaxError msg.
Proof.
  intros H. apply process_syntax_error in H.
  unfold process. now rewrite (replaceCustomData_syntax_error data text text' msg H).
Qed.

Lemma syntax_error_depends_on_keys_only_witness :
  process Samples.constant "no marker here" [("ok", SString "1"); ("a)", SString "2")] =
  SyntaxError "Unmatched ')'".
Proof.
  apply (syntax_error_depends_on_keys_only Samples.builtins Samples.constant "{{ok}}").
  reflexivity.
Defined.

(** X9: for plain keys and values whose text holds no ['$'], the
    custom-data pass is the chain, in the order of the data, of the literal
    replacements of every [{{key}}] by the text of its value. *)
Theorem custom_pass_is_literal (text : string) (data : customData) :
  forallb (fun e => plain_key (fst e) && Str.all (is_not "$") (String_ (snd e))) data = true ->
  replaceCustomData text data = Ok (literal_pass text data).
Proof.
  unfold literal_pass. revert text.
  induction data as [|[key value] data IH]; intros text H; [reflexivity |].
  simpl in H. apply andb_true_iff in H as [Hkv Hd].
  apply andb_true_iff in Hkv as [Hk Hv].
  cbn [replaceCustomData fold_left fst snd].
  rewrite custom_step_literal by assumption. cbn [bind]. now apply IH.
Qed.

Lemma custom_pass_is_literal_witness :
  replaceCustomData "{{n}} x {{ok}} {{n}}{{n}}" [("n", SNumber "42"); ("ok", SBoolean true)] =
  Ok (literal_pass "{{n}} x {{ok}} {{n}}{{n}}" [("n", SNumber "42"); ("ok", SBoolean true)]).
Proof.
  apply (custom_pass_is_literal "{{n}} x {{ok}} {{n}}{{n}}"
           [("n", SNumber "42"); ("ok", SBoolean true)]).
  reflexivity.
Defined.

(** X10: when [process] returns, its diagnostics are exactly the matches
    of the scan of the text the custom-data pass left whose function throws
    a value with a readable message, one line each, in the order of the
    scan, whatever replacements are made in between. *)
Theorem diagnostics_are_failing_matches (markers : registry) (text : string)
    (data : customData) (result : string) (log : list diagnostic) :
  process markers text data = Ok (result, log) ->
  exists r,
    replaceCustomData text data = Ok r /\
    log = diagnostics_of markers (JS.matchAll r markerPattern).
Proof.
  unfold process, replaceBuiltInMarkers, replaceBuiltInMarkers_trace. intros H.
  destruct (replaceCustomData text data) as [r | msg | | msg]; cbn [bind] in H;
    try discriminate H.
  exists r. split; [reflexivity |].
  destruct (marker_loop markers (JS.matchAll r markerPattern) (r, []))
    as [[result' log'] [message|]] eqn:E; cbn [leave] in H; [discriminate H |].
  injection H as -> ->. now apply marker_loop_log in E.
Qed.

Lemma diagnostics_are_failing_matches_witness :
  exists r,
    replaceCustomData "{{bad:1}} {{a}} {{nope}} {{who}}" [("who", SString "{{bad}}")] = Ok r /\
    [("{{bad:1}}", "boom"); ("{{bad}}", "boom")] =
    diagnostics_of Samples.failing (JS.matchAll r markerPattern).
Proof.
  apply (diagnostics_are_failing_matches Samples.failing
           "{{bad:1}} {{a}} {{nope}} {{who}}" [("who", SString "{{bad}}")]
           "{{bad:1}} V {{nope}} {{bad}}").
  reflexivity.
Defined.

Lemma marker_loop_raised (markers : registry)
    (ms : list (string * list (option string))) :
  forall st st' message,
    marker_loop markers ms st = (st', Some message) ->
    message = host_type_error /\
    exists mt, In mt ms /\ resolution markers mt = Some ThrownNullish.
Proof.
  induction ms as [|mt ms IH]; intros [result log] st' message H; [discriminate H |].
  cbn [marker_loop] in H. rewrite marker_step_resolution in H.
  destruct (resolution markers mt) as [[v | m |] |] eqn:E;
    try (apply IH in H as (Hm & mt' & Hin & Hres);
         split; [exact Hm | exists mt'; split; [now right | exact Hres]]).
  injection H as _ <-. split; [reflexivity |]. exists mt. split; [now left | exact E].
Qed.

Lemma marker_loop_raises (markers : registry)
    (ms : list (string * list (option string))) :
  (exists mt, In mt ms /\ resolution markers mt = Some ThrownNullish) ->
  forall st, snd (marker_loop markers ms st) = Some host_type_error.
Proof.
  induction ms as [|mt ms IH]; intros (mt' & Hin & Hres) [result log];
    [contradiction |].
  cbn [marker_loop]. rewrite marker_step_resolution.
  destruct Hin as [-> | Hin]; [now rewrite Hres |].
  destruct (resolution markers mt) as [[v | m |] |];
    try (apply IH; now exists mt'). reflexivity.
Qed.

(** X19: [process] raises a [TypeError] exactly when some marker of the
    text the built-in pass scans throws [null] or [undefined]: the handler
    of the loop reads [error.message] of what it caught. *)
Theorem type_error_iff_nullish_throw (markers : registry) (text : string)
    (data : customData) (r : string) :
  replaceCustomData text data = Ok r ->
  (process markers text data = TypeError host_type_error <->
   exists mt, In mt (JS.matchAll r markerPattern) /\
              resolution markers mt = Some ThrownNullish) /\
  (forall msg, process markers text data = TypeError msg -> msg = host_type_error).
Proof.
  intros Hr. unfold process, replaceBuiltInMarkers, replaceBuiltInMarkers_trace.
  rewrite Hr. cbn [bind].
  destruct (marker_loop markers (JS.matchAll r markerPattern) (r, []))
    as [st [message|]] eqn:E; cbn [leave].
  - destruct (marker_loop_raised markers _ _ _ _ E) as [-> Hex].
    split; [split; [intros _; exact Hex | reflexivity] |].
    intros msg H. now injection H as <-.
  - split; [split |]; try discriminate.
    intros Hex. pose proof (marker_loop_raises markers _ Hex (r, [])) as H.
    rewrite E in H. discriminate H.
Qed.

Lemma type_error_iff_nullish_throw_witness :
  process Samples.nullish "{{bad}} {{who}} {{a}}" [("who", SString "{{nil}}")] =
  TypeError host_type_error.
Proof.
  destruct (type_error_iff_nullish_throw Samples.nullish "{{bad}} {{who}} {{a}}"
              [("who", SString "{{nil}}")] "{{bad}} {{nil}} {{a}}") as [[_ H] _].
  - vm_compute. reflexivity.
  - apply H. exists ("{{nil}}", [Some "nil"]). split; [| reflexivity].
    vm_compute. right. now left.
Defined.

(** ** Further properties of the text markers *)

Lemma parse_marker_one_parameter (name t : string) :
  Str.all (is_not ":") name = true ->
  t <> "" ->
  Str.all (is_not ",") t = true ->
  parse_marker (name ++ String ":" t) = (JS.trim name, [JS.trim t]).
Proof.
  intros Hn Hne Hc. rewrite LoopFacts.parse_marker_colon by assumption.
  destruct (String.eqb_spec t ""); [contradiction |].
  now rewrite LoopFacts.split_none.
Qed.

(** A built-in marker called with one parameter text. *)
Lemma one_parameter_marker (markers : registry) (name t : string)
    (f : markerFn) (v : string) :
  Str.all (is_not ":") name = true ->
  Str.all (is_not "}") name = true ->
  t <> "" ->
  Str.all (is_not "}") t = true ->
  Str.all (is_not ",") t = true ->
  lookup markers (JS.trim name) = Some f ->
  f [JS.trim t] = Returned v ->
  Str.all (is_not "$") v = true ->
  process markers (marker_text (name ++ String ":" t)) [] = Ok (v, []).
Proof.
  intros Hn1 Hn2 Hne Hb Hc Hl Hf Hv.
  unfold process, replaceBuiltInMarkers, replaceBuiltInMarkers_trace.
  cbn [replaceCustomData bind].
  rewrite matchAll_single;
    [| destruct name; discriminate
     | rewrite StrFacts.all_app; cbn [Str.all]; rewrite Hn2, Hb; reflexivity].
  cbn [marker_loop].
  rewrite (LoopFacts.marker_step_returned _ _ _ _ _ f v).
  - cbn [leave]. now rewrite replace_string_whole.
  - now rewrite parse_marker_one_parameter.
  - now rewrite parse_marker_one_parameter.
Qed.

(** X11: for a non-empty ASCII parameter text [t] without ['}'], [','] and
    ['$'], [{{upper:t}}] resolves to the trimmed [t] in upper case and
    [{{lower:t}}] to the trimmed [t] in lower case. *)
Theorem upper_and_lower_markers (host : string -> markerFn) (t : string) :
  t <> "" ->
  Str.all (is_not "}") t = true ->
  Str.all (is_not ",") t = true ->
  Str.all (is_not "$") t = true ->
  Str.all Str.is_ascii t = true ->
  process (getBuiltInMarkers host) ("{{upper:" ++ t ++ "}}") [] =
    Ok (JS.toUpperCase (JS.trim t), []) /\
  process (getBuiltInMarkers host) ("{{lower:" ++ t ++ "}}") [] =
    Ok (JS.toLowerCase (JS.trim t), []).
Proof.
  intros Hne Hb Hc Hd _. split.
  - change ("{{upper:" ++ t ++ "}}") with (marker_text ("upper" ++ String ":" t)).
    apply (one_parameter_marker _ _ _ upper); try assumption; try reflexivity.
    apply all_map_chars; [exact upper_char_no_dollar | now apply all_trim].
  - change ("{{lower:" ++ t ++ "}}") with (marker_text ("lower" ++ String ":" t)).
    apply (one_parameter_marker _ _ _ lower); try assumption; try reflexivity.
    apply all_map_chars; [exact lower_char_no_dollar | now apply all_trim].
Qed.

Lemma upper_and_lower_markers_witness :
  process (getBuiltInMarkers Samples.host) "{{upper: Hello World 7 }}" [] =
    Ok ("HELLO WORLD 7", []) /\
  process (getBuiltInMarkers Samples.host) "{{lower: Hello World 7 }}" [] =
    Ok ("hello world 7", []).
Proof.
  apply (upper_and_lower_markers Samples.host " Hello World 7 "); try reflexivity.
  discriminate.
Defined.

Lemma upper_char_idem (c : ascii) : JS.upper_char (JS.upper_char c) = JS.upper_char c.
Proof. destruct c as [[] [] [] [] [] [] [] []]; reflexivity. Qed.

Lemma lower_char_idem (c : ascii) : JS.lower_char (JS.lower_char c) = JS.lower_char c.
Proof. destruct c as [[] [] [] [] [] [] [] []]; reflexivity. Qed.

Lemma map_chars_idem (f : ascii -> ascii) (s : string) :
  (forall c, f (f c) = f c) -> JS.map_chars f (JS.map_chars f s) = JS.map_chars f s.
Proof.
  intros Hf. induction s as [|c s IH]; [reflexivity |]. simpl. now rewrite Hf, IH.
Qed.

Lemma map_chars_length (f : ascii -> ascii) (s : string) :
  String.length (JS.map_chars f s) = String.length s.
Proof. induction s as [|c s IH]; [reflexivity |]. simpl. now rewrite IH. Qed.

(** X12: on ASCII text [capitalize] is idempotent and keeps the length:
    applied to its own result it returns it unchanged. *)
Theorem capitalize_idempotent (t r : string) (more : list string) :
  Str.all Str.is_ascii t = true ->
  capitalize (t :: more) = Returned r ->
  capitalize [r] = Returned r /\ String.length r = String.length t.
Proof.
  intros _ H. injection H as <-. destruct t as [|c s]; [split; reflexivity |].
  cbn [capitalize JS.charAt0 JS.slice1 Str.drop JS.toUpperCase JS.toLowerCase
       JS.map_chars append String.length].
  split.
  - f_equal. f_equal; [apply upper_char_idem |].
    apply map_chars_idem. exact lower_char_idem.
  - f_equal. apply map_chars_length.
Qed.

Lemma capitalize_idempotent_witness :
  capitalize ["Hello world"] = Returned "Hello world" /\
  String.length "Hello world" = String.length "hELLO wORLD".
Proof.
  apply (capitalize_idempotent "hELLO wORLD" "Hello world" []); reflexivity.
Defined.

(** ** Properties of [autoUpdate] and [walkTextNodes] *)

Import Dom.

Lemma node_induction (P : node -> Prop) :
  (forall s, P (Text s)) ->
  (forall children, Forall P children -> P (Parent children)) ->
  forall n, P n.
Proof.
  intros Htext Hparent. fix IH 1. intros [s | children].
  - apply Htext.
  - apply Hparent. induction children as [|c cs IHcs]; constructor.
    + apply IH.
    + exact IHcs.
Qed.

Section Walk.
Variable callback : string -> list diagnostic * outcome string.

Let walk := walkTextNodes callback.

(** The text a visited node gets from the callback. *)
Let visited (s : string) : string :=
  if includes s "{{" then
    match snd (callback s) with
    | Ok s' => s'
    | _ => s
    end
  else s.

Lemma walk_children_done (cs cs' : list node) (log : list diagnostic) :
  Forall (fun c => forall c' l, walk c = (c', l, Done) -> c' = map_text visited c) cs ->
  walk_children walk cs = (cs', log, Done) ->
  cs' = map (map_text visited) cs.
Proof.
  intros H. revert cs' log. induction H as [|c cs Hc Hcs IH]; intros cs' log E.
  - cbn in E. now injection E as <- _.
  - cbn [walk_children] in E. destruct (walk c) as [[c1 l1] st1] eqn:Ec.
    destruct st1; try (injection E as _ _ E; discriminate).
    fold (walk_children walk) in E.
    destruct (walk_children walk cs) as [[cs1 l2] st2] eqn:Ecs.
    injection E as <- _ ->. cbn [map]. f_equal; [now apply (Hc c1 l1) |].
    now apply (IH cs1 l2).
Qed.

Lemma walk_done (n : node) :
  forall n' log, walk n = (n', log, Done) -> n' = map_text visited n.
Proof.
  induction n as [s | children IH] using node_induction; intros n' log E.
  - unfold walk in E. cbn [walkTextNodes] in E. cbn [map_text]. unfold visited.
    destruct (includes s "{{"); [| now injection E as <- _].
    destruct (callback s) as [l [s' | msg | | msg]]; try discriminate.
    now injection E as <- _.
  - unfold walk in E. cbn [walkTextNodes] in E. fold walk in E.
    destruct (walk_children walk children) as [[cs' l] st] eqn:Ecs.
    injection E as <- _ ->. cbn [map_text]. f_equal.
    now apply (walk_children_done children cs' l).
Qed.

(** When the callback returns for every text of the tree, the walk ends
    normally. *)
Lemma walk_children_always_done (cs : list node) :
  Forall (fun c => snd (walk c) = Done) cs ->
  snd (walk_children walk cs) = Done.
Proof.
  induction 1 as [|c cs Hc Hcs IH]; [reflexivity |].
  cbn [walk_children]. destruct (walk c) as [[c1 l1] st1]. cbn [snd] in Hc. subst st1.
  fold (walk_children walk). destruct (walk_children walk cs) as [[cs1 l2] st2].
  exact IH.
Qed.

Lemma walk_always_done (n : node) :
  Forall (fun s => exists l r, callback s = (l, Ok r)) (texts n) -> snd (walk n) = Done.
Proof.
  induction n as [s | children IH] using node_induction; intros Hcb.
  - unfold walk. cbn [walkTextNodes]. destruct (includes s "{{"); [| reflexivity].
    cbn [texts] in Hcb. inversion Hcb as [|? ? (l & r & E) _]; subst.
    now rewrite E.
  - unfold walk. cbn [walkTextNodes]. fold walk.
    assert (H : snd (walk_children walk children) = Done).
    { apply walk_children_always_done. cbn [texts] in Hcb. clear - IH Hcb.
      induction IH as [|c cs Hc Hcs IHcs]; constructor.
      - apply Hc. cbn [flat_map] in Hcb. apply Forall_app in Hcb. tauto.
      - apply IHcs. cbn [flat_map] in Hcb. apply Forall_app in Hcb. tauto. }
    destruct (walk_children walk children) as [[cs' l] st]. exact H.
Qed.

(** When the callback returns for no text and logs nothing, the walk
    changes nothing. *)
Lemma walk_children_unchanged (cs : list node) :
  Forall (fun c => fst (walk c) = (c, [])) cs ->
  fst (walk_children walk cs) = (cs, []).
Proof.
  induction 1 as [|c cs Hc Hcs IH]; [reflexivity |].
  cbn [walk_children]. destruct (walk c) as [[c1 l1] st1]. cbn [fst] in Hc.
  injection Hc as -> ->.
  fold (walk_children walk). destruct (walk_children walk cs) as [[cs1 l2] st2].
  cbn [fst] in IH. injection IH as -> ->. destruct st1; reflexivity.
Qed.

Lemma walk_unchanged (n : node) :
  (forall s, fst (callback s) = [] /\ forall r, snd (callback s) <> Ok r) ->
  fst (walk n) = (n, []).
Proof.
  intros Hcb. induction n as [s | children IH] using node_induction.
  - unfold walk. cbn [walkTextNodes]. destruct (includes s "{{"); [| reflexivity].
    destruct (Hcb s) as [Hl Hr].
    destruct (callback s) as [l [s' | msg | | msg]]; cbn [fst snd] in *; subst l;
      try reflexivity.
    now elim (Hr s').
  - unfold walk. cbn [walkTextNodes]. fold walk.
    pose proof (walk_children_unchanged children IH) as H.
    destruct (walk_children walk children) as [[cs' l] st].
    cbn [fst] in *. now injection H as -> ->.
Qed.

(** A walk ends with a [SyntaxError] only when the callback raised it. *)
Lemma walk_children_no_syntax_error (cs : list node) :
  Forall (fun c => forall msg, snd (walk c) <> RaisedSyntaxError msg) cs ->
  forall msg, snd (walk_children walk cs) <> RaisedSyntaxError msg.
Proof.
  induction 1 as [|c cs Hc Hcs IH]; intros msg; [discriminate |].
  cbn [walk_children]. destruct (walk c) as [[c1 l1] st1]. cbn [snd] in Hc.
  fold (walk_children walk). destruct (walk_children walk cs) as [[cs1 l2] st2].
  cbn [snd] in IH. destruct st1; cbn [snd]; (apply IH || apply Hc || discriminate).
Qed.

Lemma walk_no_syntax_error (n : node) :
  (forall s msg, snd (callback s) <> SyntaxError msg) ->
  forall msg, snd (walk n) <> RaisedSyntaxError msg.
Proof.
  intros Hcb. induction n as [s | children IH] using node_induction; intros msg.
  - unfold walk. cbn [walkTextNodes]. destruct (includes s "{{"); [| discriminate].
    pose proof (Hcb s) as Hs.
    destruct (callback s) as [l [s' | m | | m]]; cbn [snd] in *; try discriminate.
    now elim (Hs m).
  - unfold walk. cbn [walkTextNodes]. fold walk.
    pose proof (walk_children_no_syntax_error children IH msg) as H.
    destruct (walk_children walk children) as [[cs' l] st]. exact H.
Qed.

(** Text nodes without [{{] are not handed to the callback. *)
Lemma walk_children_skipped (cs : list node) :
  Forall (fun c => walk c = (c, [], Done)) cs ->
  walk_children walk cs = (cs, [], Done).
Proof.
  induction 1 as [|c cs Hc Hcs IH]; [reflexivity |].
  cbn [walk_children]. rewrite Hc. fold (walk_children walk). now rewrite IH.
Qed.

Lemma walk_skipped (n : node) :
  Forall (fun s => includes s "{{" = false) (texts n) -> walk n = (n, [], Done).
Proof.
  induction n as [s | children IH] using node_induction; intros H.
  - cbn [texts] in H. inversion H as [|? ? Hs _]; subst.
    unfold walk. cbn [walkTextNodes]. now rewrite Hs.
  - unfold walk. cbn [walkTextNodes]. fold walk.
    rewrite walk_children_skipped; [reflexivity |].
    cbn [texts] in H. clear - IH H.
    induction IH as [|c cs Hc Hcs IHcs]; constructor.
    + apply Hc. cbn [flat_map] in H. apply Forall_app in H. tauto.
    + apply IHcs. cbn [flat_map] in H. apply Forall_app in H. tauto.
Qed.

End Walk.

Lemma if_eqb_same (a b : string) : (if String.eqb a b then a else b) = b.
Proof. destruct (String.eqb_spec a b); congruence. Qed.

Lemma map_text_ext (f g : string -> string) (n : node) :
  (forall s, f s = g s) -> map_text f n = map_text g n.
Proof.
  intros Hfg. induction n as [s | children IH] using node_induction.
  - cbn. now rewrite Hfg.
  - cbn [map_text]. f_equal. induction IH as [|c cs Hc Hcs IHcs]; [reflexivity |].
    cbn [map]. now rewrite Hc, IHcs.
Qed.

Lemma texts_map_text (f : string -> string) (n : node) :
  texts (map_text f n) = map f (texts n).
Proof.
  induction n as [s | children IH] using node_induction; [reflexivity |].
  cbn [map_text texts]. induction IH as [|c cs Hc Hcs IHcs]; [reflexivity |].
  cbn [map flat_map]. now rewrite map_app, Hc, IHcs.
Qed.

(** What [process] gives its caller, from the call with its diagnostics. *)
Lemma process_of_trace (markers : registry) (text : string) (data : customData) :
  process markers text data =
  match process_trace markers text data with
  | (log, Ok result) => Ok (result, log)
  | (_, SyntaxError msg) => SyntaxError msg
  | (_, Unmodelled) => Unmodelled
  | (_, TypeError msg) => TypeError msg
  end.
Proof.
  unfold process, process_trace, replaceBuiltInMarkers.
  destruct (replaceCustomData text data) as [r | msg | | msg]; cbn [bind];
    try reflexivity.
  now destruct (replaceBuiltInMarkers_trace markers r) as [[r' log] [message|]].
Qed.

(** The callback of [autoUpdate] hands on what [process] comes to. *)
Lemma update_text_ok (markers : registry) (data : customData) (s : string) :
  update_text markers data s = process_trace markers s data.
Proof.
  unfold update_text.
  destruct (process_trace markers s data) as [log [s' | msg | | msg]];
    cbn [bind]; try reflexivity.
  now rewrite if_eqb_same.
Qed.

Lemma walk_update_done (markers : registry) (data : customData)
    (el el' : node) (log : list diagnostic) :
  walkTextNodes (update_text markers data) el = (el', log, Done) ->
  el' = map_text (processed markers data) el.
Proof.
  intros E. apply walk_done in E. rewrite E. apply map_text_ext.
  intros s. unfold processed. rewrite update_text_ok, process_of_trace.
  destruct (includes s "{{"); [| reflexivity].
  now destruct (process_trace markers s data) as [l [s' | msg | | msg]].
Qed.

(** X13: when [autoUpdate] ends normally, the element it worked on is the
    same tree with the text of every text node that holds [{{] replaced by
    what [process] returns for it, every other text node as it was; the
    texts keep their document order. *)
Theorem autoUpdate_maps_process (markers : registry)
    (querySelector : string -> option node) (selector : string)
    (data : customData) (el : node) :
  querySelector selector = Some el ->
  ended (autoUpdate markers (Some querySelector) selector data) = Done ->
  element (autoUpdate markers (Some querySelector) selector data) =
    Some (map_text (processed markers data) el) /\
  option_map texts (element (autoUpdate markers (Some querySelector) selector data)) =
    Some (map (processed markers data) (texts el)).
Proof.
  intros Hq Hend. unfold autoUpdate in *. rewrite Hq in *.
  destruct (walkTextNodes (update_text markers data) el) as [[el' log] st] eqn:E.
  cbn [ended element] in *. subst st.
  apply walk_update_done in E. rewrite E.
  split; [reflexivity |]. cbn [option_map]. now rewrite texts_map_text.
Qed.

Lemma autoUpdate_maps_process_witness :
  element (autoUpdate Samples.builtins
             (Some (fun _ => Some (Parent [Text "{{upper:a}}"; Parent [Text "b"]])))
             "body" []) =
    Some (map_text (processed Samples.builtins [])
            (Parent [Text "{{upper:a}}"; Parent [Text "b"]])) /\
  option_map texts
    (element (autoUpdate Samples.builtins
                (Some (fun _ => Some (Parent [Text "{{upper:a}}"; Parent [Text "b"]])))
                "body" [])) =
    Some (map (processed Samples.builtins [])
            (texts (Parent [Text "{{upper:a}}"; Parent [Text "b"]]))).
Proof.
  apply (autoUpdate_maps_process Samples.builtins
           (fun _ => Some (Parent [Text "{{upper:a}}"; Parent [Text "b"]])) "body" []);
    reflexivity.
Defined.

(** X14: when no text node under the element holds [{{], [autoUpdate]
    leaves the element as it is, logs nothing and ends normally, whatever the
    custom data: [process] is not called at all. *)
Theorem autoUpdate_skips_plain_text (markers : registry)
    (querySelector : string -> option node) (selector : string)
    (data : customData) (el : node) :
  querySelector selector = Some el ->
  Forall (fun s => includes s "{{" = false) (texts el) ->
  autoUpdate markers (Some querySelector) selector data =
  MkUpdated (Some el) [] [] Done.
Proof.
  intros Hq H. unfold autoUpdate. rewrite Hq.
  now rewrite walk_skipped.
Qed.

Lemma autoUpdate_skips_plain_text_witness :
  autoUpdate Samples.builtins
    (Some (fun _ => Some (Parent [Text "a { b }"; Parent [Text "{}"; Parent []]])))
    "#footer" [("(", SString "x"); ("1", SString "y")] =
  MkUpdated (Some (Parent [Text "a { b }"; Parent [Text "{}"; Parent []]])) [] [] Done.
Proof.
  apply (autoUpdate_skips_plain_text Samples.builtins
           (fun _ => Some (Parent [Text "a { b }"; Parent [Text "{}"; Parent []]]))).
  - reflexivity.
  - repeat constructor.
Defined.

(** The custom-data pass ends the same way on every text. *)
Lemma process_trace_raised (markers : registry) (data : customData) (s0 s : string) :
  (forall r, replaceCustomData s0 data <> Ok r) ->
  fst (process_trace markers s data) = [] /\
  forall r, snd (process_trace markers s data) <> Ok r.
Proof.
  intros H0. unfold process_trace.
  pose proof (replaceCustomData_same_ending data s0 s) as E.
  destruct (replaceCustomData s0 data) as [r0 | m0 | | m0];
    [now elim (H0 r0) | | |];
    destruct (replaceCustomData s data) as [r | m | | m]; cbn in E;
    try contradiction; split; (reflexivity || discriminate).
Qed.

Lemma process_trace_no_syntax_error (markers : registry) (data : customData)
    (s0 s r0 : string) :
  replaceCustomData s0 data = Ok r0 ->
  forall msg, snd (process_trace markers s data) <> SyntaxError msg.
Proof.
  intros H0 msg. unfold process_trace.
  pose proof (replaceCustomData_same_ending data s0 s) as E. rewrite H0 in E.
  destruct (replaceCustomData s data) as [r | m | | m]; cbn in E; try contradiction.
  destruct (replaceBuiltInMarkers_trace markers r) as [[r' log] [message|]];
    discriminate.
Qed.

(** X15: when a [SyntaxError] leaves [autoUpdate], no text node has been
    changed and nothing has been logged: the exception comes from a key of
    the custom data, at the first text node that is visited. *)
Theorem autoUpdate_syntax_error_changes_nothing (markers : registry)
    (querySelector : string -> option node) (selector : string)
    (data : customData) (el : node) (msg : string) :
  querySelector selector = Some el ->
  ended (autoUpdate markers (Some querySelector) selector data) = RaisedSyntaxError msg ->
  element (autoUpdate markers (Some querySelector) selector data) = Some el /\
  diagnostics (autoUpdate markers (Some querySelector) selector data) = [].
Proof.
  intros Hq Hend. unfold autoUpdate in *. rewrite Hq in *.
  destruct (replaceCustomData "" data) as [r0 | msg0 | | msg0] eqn:E0.
  - exfalso.
    pose proof (walk_no_syntax_error (update_text markers data) el) as Hn.
    destruct (walkTextNodes (update_text markers data) el) as [[el' log] st].
    cbn [ended snd] in *. apply (Hn (fun s m => ltac:(rewrite update_text_ok;
      exact (process_trace_no_syntax_error markers data "" s r0 E0 m))) msg Hend).
  - pose proof (walk_unchanged (update_text markers data) el) as Hu.
    destruct (walkTextNodes (update_text markers data) el) as [[el' log] st].
    cbn [element diagnostics fst] in *.
    assert (H : (el', log) = (el, [])).
    { apply Hu. intros s. rewrite update_text_ok.
      apply (process_trace_raised markers data ""). rewrite E0. discriminate. }
    now injection H as -> ->.
  - pose proof (walk_unchanged (update_text markers data) el) as Hu.
    destruct (walkTextNodes (update_text markers data) el) as [[el' log] st].
    cbn [element diagnostics fst] in *.
    assert (H : (el', log) = (el, [])).
    { apply Hu. intros s. rewrite update_text_ok.
      apply (process_trace_raised markers data ""). rewrite E0. discriminate. }
    now injection H as -> ->.
  - pose proof (walk_unchanged (update_text markers data) el) as Hu.
    destruct (walkTextNodes (update_text markers data) el) as [[el' log] st].
    cbn [element diagnostics fst] in *.
    assert (H : (el', log) = (el, [])).
    { apply Hu. intros s. rewrite update_text_ok.
      apply (process_trace_raised markers data ""). rewrite E0. discriminate. }
    now injection H as -> ->.
Qed.

Lemma autoUpdate_syntax_error_changes_nothing_witness :
  element (autoUpdate Samples.failing
             (Some (fun _ => Some (Parent [Text "{{bad}} {{upper:a}}"; Text "{{b}}"])))
             "body" [("b", SString "B"); ("(", SString "x")]) =
    Some (Parent [Text "{{bad}} {{upper:a}}"; Text "{{b}}"]) /\
  diagnostics (autoUpdate Samples.failing
                 (Some (fun _ => Some (Parent [Text "{{bad}} {{upper:a}}"; Text "{{b}}"])))
                 "body" [("b", SString "B"); ("(", SString "x")]) = [].
Proof.
  apply (autoUpdate_syntax_error_changes_nothing Samples.failing
           (fun _ => Some (Parent [Text "{{bad}} {{upper:a}}"; Text "{{b}}"])) "body"
           [("b", SString "B"); ("(", SString "x")]
           (Parent [Text "{{bad}} {{upper:a}}"; Text "{{b}}"]) "Unterminated group");
    reflexivity.
Defined.

(** X16: with plain keys, and when no marker of the texts throws [null] or
    [undefined], [autoUpdate] ends normally, and every text node, visited or
    not, ends up with what [process] returns for its text: the test for
    [{{] only spares calls that would change nothing. *)
Theorem autoUpdate_with_plain_keys (markers : registry)
    (querySelector : string -> option node) (selector : string)
    (data : customData) (el : node) :
  forallb (fun e => plain_key (fst e)) data = true ->
  querySelector selector = Some el ->
  Forall (fun s => forall r mt,
            replaceCustomData s data = Ok r ->
            In mt (JS.matchAll r markerPattern) ->
            resolution markers mt <> Some ThrownNullish) (texts el) ->
  ended (autoUpdate markers (Some querySelector) selector data) = Done /\
  element (autoUpdate markers (Some querySelector) selector data) =
    Some (map_text (process_text markers data) el).
Proof.
  intros Hkeys Hq Hsafe.
  assert (Hok : Forall (fun s => exists l r, update_text markers data s = (l, Ok r))
                  (texts el)).
  { apply (Forall_impl _ (P := fun s => forall r mt,
              replaceCustomData s data = Ok r ->
              In mt (JS.matchAll r markerPattern) ->
              resolution markers mt <> Some ThrownNullish)); [| exact Hsafe].
    intros s Hs. rewrite update_text_ok. unfold process_trace.
    destruct (replaceCustomData_plain_returns data Hkeys s) as [r Er]. rewrite Er.
    pose proof (marker_loop_runs markers (JS.matchAll r markerPattern)
                  (fun mt Hin => Hs r mt Er Hin) (r, [])) as Hrun.
    unfold replaceBuiltInMarkers_trace.
    destruct (marker_loop markers (JS.matchAll r markerPattern) (r, []))
      as [[r' log] raised]. cbn [snd] in Hrun. subst raised.
    now exists log, r'. }
  unfold autoUpdate. rewrite Hq.
  pose proof (walk_always_done (update_text markers data) el Hok) as Hd.
  destruct (walkTextNodes (update_text markers data) el) as [[el' log] st] eqn:E.
  cbn [snd ended element] in *. subst st. split; [reflexivity |].
  apply walk_update_done in E. rewrite E.
  f_equal. apply map_text_ext. intros s. unfold processed, process_text.
  destruct (includes s "{{") eqn:Hinc; [reflexivity |].
  unfold process. rewrite replaceCustomData_no_open by assumption.
  cbn [bind]. now rewrite replaceBuiltInMarkers_no_open.
Qed.

Lemma autoUpdate_with_plain_keys_witness :
  ended (autoUpdate Samples.failing
           (Some (fun _ => Some (Parent [Text "Hi {{name}} {{bad}}"; Text "{ok}"])))
           "body" [("name", SString "Bob")]) = Done /\
  element (autoUpdate Samples.failing
             (Some (fun _ => Some (Parent [Text "Hi {{name}} {{bad}}"; Text "{ok}"])))
             "body" [("name", SString "Bob")]) =
    Some (map_text (process_text Samples.failing [("name", SString "Bob")])
            (Parent [Text "Hi {{name}} {{bad}}"; Text "{ok}"])).
Proof.
  apply (autoUpdate_with_plain_keys Samples.failing
           (fun _ => Some (Parent [Text "Hi {{name}} {{bad}}"; Text "{ok}"])) "body"
           [("name", SString "Bob")]); try reflexivity.
  repeat constructor; intros r mt Hr Hin; vm_compute in Hr; injection Hr as <-;
    vm_compute in Hin;
    repeat (destruct Hin as [<- | Hin]; [vm_compute; discriminate |]);
    contradiction.
Defined.

(** ** Properties of the date markers *)

Import Num DateMarkers.

Lemma yearPattern_source : compile "^\d{4}$" = Ok yearPattern.
Proof. reflexivity. Qed.

Lemma class_digit (a : ascii) :
  class_matches false [CDigit false] a = Str.is_digit a.
Proof. unfold class_matches. cbn. now destruct (Str.is_digit a). Qed.

Lemma exec_year_at_start (a b c d : ascii) (tail : string) :
  Str.is_digit a = true -> Str.is_digit b = true ->
  Str.is_digit c = true -> Str.is_digit d = true ->
  exec_at yearPattern 0 (String a (String b (String c (String d tail)))) =
  match tail with
  | EmptyString => Some (4, [])
  | String _ _ => None
  end.
Proof.
  intros Ha Hb Hc Hd. unfold exec_at, yearPattern. cbn [ast ngroups List.repeat m].
  cbn [pos Nat.eqb repeat_min max_is_zero dec_max Nat.pred].
  unfold reset. cbn [pos rest caps clear_from].
  rewrite !MatchFacts.step_char_cons, !class_digit, Ha.
  cbn [pos rest caps clear_from].
  rewrite !MatchFacts.step_char_cons, !class_digit, Hb.
  cbn [pos rest caps clear_from].
  rewrite !MatchFacts.step_char_cons, !class_digit, Hc.
  cbn [pos rest caps clear_from].
  rewrite !MatchFacts.step_char_cons, !class_digit, Hd.
  cbn [pos rest caps clear_from repeat_opt max_is_zero].
  destruct tail; reflexivity.
Qed.

Lemma test_year_later (r : string) : forall p, test_loop yearPattern (S p) r = false.
Proof. induction r as [|x r IH]; intros p; [reflexivity |]. cbn. apply IH. Qed.

Lemma split_length (sep : ascii) (a b : string) :
  2 <= List.length (JS.split sep (a ++ String sep b)).
Proof.
  induction a as [|c a IH].
  - cbn. rewrite StrFacts.eqc_refl. cbn [List.length].
    destruct (JS.split sep b) eqn:E; [now apply LoopFacts.split_nonempty in E |].
    cbn. lia.
  - cbn [append JS.split]. destruct (Str.eqc c sep).
    + cbn [List.length]. lia.
    + destruct (JS.split sep (a ++ String sep b)); cbn [List.length] in *; lia.
Qed.

(** X17: for a year [y] of four digits, [years_since] gives the same result
    for [y-m-d], whatever the texts [m] and [d], as for [y] alone: the year
    of the clock minus [y], without asking the host to read a date. *)
Theorem years_since_date_as_year (currentYear : Z) (dateYear dateYear' : string -> jsnum)
    (a b c d : ascii) (month day : string) (more more' : list string) :
  Str.is_digit a = true -> Str.is_digit b = true ->
  Str.is_digit c = true -> Str.is_digit d = true ->
  let y := String a (String b (String c (String d ""))) in
  years_since currentYear dateYear ((y ++ "-" ++ month ++ "-" ++ day) :: more) =
    Returned (toString (sub (Int currentYear) (parseInt y))) /\
  years_since currentYear dateYear' (y :: more') =
    Returned (toString (sub (Int currentYear) (parseInt y))).
Proof.
  intros Ha Hb Hc Hd y. subst y. split.
  - cbn [years_since append]. unfold test. cbn [test_loop].
    rewrite exec_year_at_start by assumption.
    rewrite test_year_later.
    assert (Hparts : JS.split "-" (String a (String b (String c (String d
                       (String "-" (month ++ String "-" day)))))) =
                     String a (String b (String c (String d ""))) ::
                     JS.split "-" (month ++ String "-" day)).
    { apply (LoopFacts.split_first "-" (String a (String b (String c (String d ""))))).
      cbn [Str.all]. unfold is_not.
      assert (E : forall x, Str.is_digit x = true -> negb (Str.eqc x "-") = true)
        by (intros x Hx; ParseFacts.by_ascii x).
      now rewrite !E by assumption. }
    rewrite Hparts. cbn [List.length hd].
    pose proof (split_length "-" month day) as Hlen.
    destruct (List.length (JS.split "-" (month ++ String "-" day))) as [|[|n]];
      [lia | lia | reflexivity].
  - cbn [years_since]. unfold test. cbn [test_loop].
    now rewrite exec_year_at_start.
Qed.

Lemma years_since_date_as_year_witness :
  years_since 2026 (fun _ => NaN) ["2020-01-01"] = Returned "6" /\
  years_since 2026 (fun _ => Int 1) ["2020"] = Returned "6".
Proof.
  apply (years_since_date_as_year 2026 (fun _ => NaN) (fun _ => Int 1)
           "2" "0" "2" "0" "01" "01" [] []); reflexivity.
Defined.

Ltac decide_comparisons :=
  repeat match goal with
         | |- context [Z.eqb ?x ?y] =>
             destruct (Z.eqb_spec x y); [try lia | try lia]
         | |- context [Z.ltb ?x ?y] =>
             destruct (Z.ltb_spec x y); [try lia | try lia]
         end.

(** X18: [relative_time] words the past and the future differently at a
    count of one: between one and two weeks, months (of 30 days) or years (of
    365 days) back it says [1 week ago], [1 month ago] or [1 year ago], and
    the same distance ahead it says [in 1 weeks], [in 1 months] or
    [in 1 years]. *)
Theorem relative_phrase_at_one_unit (d : Z) :
  (7 <= d < 14 \/ 30 <= d < 60 \/ 365 <= d < 730)%Z ->
  let unit := if (d <? 30)%Z then "week" else if (d <? 365)%Z then "month" else "year" in
  relative_phrase (Int d) = "1 " ++ unit ++ " ago" /\
  relative_phrase (Int (- d)) = "in 1 " ++ unit ++ "s".
Proof.
  intros H unit. subst unit.
  assert (Habs : Z.abs (- d) = d) by lia.
  unfold relative_phrase, eqb, ltb, gtb, ltb, abs, floor_div, plural. rewrite Habs.
  destruct H as [H | [H | H]].
  - replace (d / 7)%Z with 1%Z
      by (apply (Z.div_unique d 7 1 (d - 7)); lia).
    split; decide_comparisons; reflexivity.
  - replace (d / 30)%Z with 1%Z
      by (apply (Z.div_unique d 30 1 (d - 30)); lia).
    split; decide_comparisons; reflexivity.
  - replace (d / 365)%Z with 1%Z
      by (apply (Z.div_unique d 365 1 (d - 365)); lia).
    split; decide_comparisons; reflexivity.
Qed.

Lemma relative_phrase_at_one_unit_witness :
  relative_phrase (Int 45) = "1 month ago" /\
  relative_phrase (Int (- 45)) = "in 1 months".
Proof.
  apply (relative_phrase_at_one_unit 45). lia.
Defined.
